(** * fastapi-demo: a posts API over SQLite, with per-route rate limits

    Shallow embedding of [appWithSqlite.py] and [appWithLimiter.py].

    - [Py]      : the Python primitives the handlers rely on ([str] on
                  integers, [int / int], [math.ceil], f-strings).
    - [Http]    : [HTTPException], responses, the outcome of a handler.
    - [Sqlite]  : the [posts] table, connections (each owned by the thread
                  that opened it), cursors and the five SQL statements the
                  handlers execute, with the errors the driver raises.
    - [App]     : the handlers of both files (their bodies are the same
                  text; [appWithLimiter.py] adds [async], which moves them
                  to the event loop, and the [RateLimiter] dependencies)
                  and [custom_callback].
    - [Limiter] : the rate limiter core.  Its code is the [fastapi_limiter]
                  package, which the repository only calls; it is modelled
                  from the specification (section 4.1).
    - [Race]    : simultaneous requests as interleavings of the limiter's
                  atomic increment and of the local decision. *)

From Stdlib Require Import ZArith Lia List.
From Stdlib Require Import Floats.PrimFloat Floats.SpecFloat Floats.FloatOps.
From Stdlib Require Import Numbers.Cyclic.Int63.Uint63.
From stdpp Require Import gmap strings list pretty.
From stdpp Require Import sorting.

Local Open Scope Z_scope.

(* ===================================================================== *)
(** ** Python primitives *)
(* ===================================================================== *)

Module Py.

(** [str(n)] for an [int]: decimal digits, a leading [-] when negative. *)
Definition str (n : Z) : string := pretty n.

(** CPython's [float] is the hardware binary64. *)
Definition small (a : Z) : bool := Z.abs a <? 2 ^ 53.

(** [float(a)] for an [int] below [2^53] in absolute value: exact. *)
Definition float_of_small_int (a : Z) : float :=
  match a with
  | Z0 => PrimFloat.zero
  | Zpos _ => PrimFloat.of_uint63 (Uint63.of_Z a)
  | Zneg p => PrimFloat.opp (PrimFloat.of_uint63 (Uint63.of_Z (Zpos p)))
  end.

(** The quotient of two integers rounded once to binary64 (to nearest,
    ties to even), as CPython's [long_true_divide] computes it when an
    operand does not fit 53 bits. *)
Definition rounded_quotient (a b : Z) : spec_float :=
  let '(q, e, l) := SFdiv_core_binary 53 1024 (Z.abs a) 0 (Z.abs b) 0 in
  binary_round_aux 53 1024 (xorb (a <? 0) (b <? 0)) q e l.

(** What a Python expression evaluates to: a value, or an exception named
    by its class. *)
Inductive value (A : Type) : Type :=
| Val (a : A)
| Exc (cls : string).
Arguments Val {A} a.
Arguments Exc {A} cls.

(** [a / b] on two [int]s (true division).  Two operands below [2^53] are
    converted exactly and divided by the hardware; otherwise the exact
    quotient is rounded once. *)
Definition truediv (a b : Z) : value float :=
  if b =? 0 then Exc "ZeroDivisionError"
  else if small a && small b
  then Val (PrimFloat.div (float_of_small_int a) (float_of_small_int b))
  else if a =? 0 then Val PrimFloat.zero
  else match rounded_quotient a b with
       | S754_infinity _ => Exc "OverflowError"
       | q => Val (SF2Prim q)
       end.

(** [math.ceil(x)] of a [float]: the least integer not below [x]. *)
Definition ceil (x : float) : value Z :=
  match Prim2SF x with
  | S754_zero _ => Val 0
  | S754_finite s m e =>
      let n := cond_Zopp s (Zpos m) in
      Val (if 0 <=? e then n * 2 ^ e else - ((- n) / 2 ^ (- e)))
  | S754_infinity _ => Exc "OverflowError"
  | S754_nan => Exc "ValueError"
  end.

(** [ceil(a / b)] as the source writes it. *)
Definition ceil_truediv (a b : Z) : value Z :=
  match truediv a b with
  | Val x => ceil x
  | Exc cls => Exc cls
  end.

(** The mathematical ceiling of [a / b] for [b > 0], to compare with. *)
Definition exact_ceil (a b : Z) : Z := - ((- a) / b).

End Py.

(* ===================================================================== *)
(** ** HTTP *)
(* ===================================================================== *)

Module Http.

Inductive Method : Set := GET | POST | PUT | DELETE.

#[global] Instance Method_eq_dec : EqDecision Method.
Proof. solve_decision. Defined.

(** [fastapi.status] *)
Definition HTTP_200_OK : Z := 200.
Definition HTTP_201_CREATED : Z := 201.
Definition HTTP_204_NO_CONTENT : Z := 204.
Definition HTTP_404_NOT_FOUND : Z := 404.
Definition HTTP_429_TOO_MANY_REQUESTS : Z := 429.
Definition HTTP_500_INTERNAL_SERVER_ERROR : Z := 500.

(** [HTTPException(status_code, detail, headers)]; [headers] is a dict
    given by its items, and defaults to [None]. *)
Record HTTPException : Type := {
  status_code : Z;
  detail : string;
  headers : option (list (string * string))
}.

(** How a handler (or a dependency) ends: it returns, it raises
    [HTTPException], or another exception escapes. *)
Inductive outcome (A : Type) : Type :=
| Return (a : A)
| RaiseHTTP (e : HTTPException)
| Raise (cls : string).
Arguments Return {A} a.
Arguments RaiseHTTP {A} e.
Arguments Raise {A} cls.

End Http.

Import Http.

(* ===================================================================== *)
(** ** The [posts] table

    [[
    CREATE TABLE IF NOT EXISTS posts (
        id INTEGER PRIMARY KEY AUTOINCREMENT,
        title TEXT NOT NULL,
        content TEXT NOT NULL,
        published BOOLEAN DEFAULT TRUE,
        rating INTEGER
    )
    ]]

    The database is a file that holds this table.  SQLite has no boolean
    storage class: the driver binds Python's [True] and [False] as the
    integers 1 and 0, and a [SELECT] gives them back as integers.  An
    INTEGER is a signed 64-bit value: the driver refuses to bind a Python
    [int] outside that range ([OverflowError]).  Texts are the strings
    UTF-8 can encode. *)
(* ===================================================================== *)

Module Sqlite.

(** A row of [posts], which is also what [dict(row)] holds: the five
    columns by name. *)
Record Row : Type := {
  row_id : Z;
  row_title : string;
  row_content : string;
  row_published : Z;
  row_rating : option Z
}.

#[global] Instance Row_eq_dec : EqDecision Row.
Proof. solve_decision. Defined.

(** The database file: the rows of [posts] in rowid order, and the entry
    of [posts] in [sqlite_sequence] (the largest rowid the table ever
    held; 0 before the first [INSERT]). *)
Record Database : Type := {
  posts : list Row;
  sqlite_sequence : Z
}.

(** Where code runs.  FastAPI runs a dependency or a handler written with
    [def] on a worker thread of its pool, and a handler written with
    [async def] on the thread of the event loop.  Requests are taken one
    at a time: the pool then hands a [def] handler the worker that has
    just run its dependency. *)
Inductive ThreadId : Set := Worker | Loop.

#[global] Instance ThreadId_eq_dec : EqDecision ThreadId.
Proof. solve_decision. Defined.

(** [sqlite3.connect(DATABASE_URL)], with [check_same_thread] left at its
    default: the connection belongs to the thread that opened it.  It sees
    its own uncommitted changes in [working]; [committed] is what the file
    holds. *)
Record Connection : Type := {
  owner : ThreadId;
  committed : Database;
  working : Database;
  last_insert_rowid : Z
}.

(** A cursor after [execute]: the rows selected and [rowcount]. *)
Record Cursor : Type := {
  selected : list Row;
  rowcount : Z
}.

Definition connect (thread : ThreadId) (file : Database) : Connection :=
  {| owner := thread; committed := file; working := file; last_insert_rowid := 0 |}.

(** [conn.close()]: what was not committed is lost. *)
Definition close (conn : Connection) : Database := committed conn.

(** What a call on a connection does: it returns or raises, and leaves
    the connection in a new state. *)
Definition Action (A : Type) : Type := Connection → outcome A * Connection.

Definition ret {A : Type} (a : A) : Action A :=
  fun conn => (Return a, conn).

Definition raise {A : Type} (cls : string) : Action A :=
  fun conn => (Raise cls, conn).

Definition raise_http {A : Type} (e : HTTPException) : Action A :=
  fun conn => (RaiseHTTP e, conn).

(** One statement after the other: an exception ends the sequence. *)
Definition bind {A B : Type} (m : Action A) (k : A → Action B) : Action B :=
  fun conn =>
    match m conn with
    | (Return a, conn) => k a conn
    | (RaiseHTTP e, conn) => (RaiseHTTP e, conn)
    | (Raise cls, conn) => (Raise cls, conn)
    end.

Notation "'let*' x := m 'in' k" := (bind m (fun x => k))
  (at level 10, x name, m at level 100, k at level 200).

(** [db.cursor()] on [thread]: the driver refuses a connection of another
    thread.  Every later call of a handler is on the thread of its first
    call. *)
Definition cursor (thread : ThreadId) : Action unit :=
  fun conn =>
    if decide (thread = owner conn)
    then (Return tt, conn)
    else (Raise "ProgrammingError", conn).

(** [db.commit()] *)
Definition commit : Action unit :=
  fun conn =>
    (Return tt,
     {| owner := owner conn; committed := working conn; working := working conn;
        last_insert_rowid := last_insert_rowid conn |}).

Definition INT64_MIN : Z := - 2 ^ 63.
Definition INT64_MAX : Z := 2 ^ 63 - 1.

(** What the driver can bind as an INTEGER. *)
Definition fits_int64 (n : Z) : bool := (INT64_MIN <=? n) && (n <=? INT64_MAX).

(** [None] is bound as NULL. *)
Definition fits_optional (n : option Z) : bool :=
  match n with
  | Some n => fits_int64 n
  | None => true
  end.

(** The driver's adaptation of a Python [bool]. *)
Definition adapt_bool (b : bool) : Z := if b then 1 else 0.

(** The largest rowid in the table, if it has a row. *)
Definition last_rowid (rows : list Row) : option Z :=
  foldr (fun r m => Some (match m with
                          | Some x => Z.max (row_id r) x
                          | None => row_id r
                          end)) None rows.

(** The rowid AUTOINCREMENT picks: one more than the largest rowid in the
    table (1 for an empty table), and at least one more than the recorded
    sequence; none when the largest rowid or the sequence has reached the
    last 64-bit value. *)
Definition next_rowid (d : Database) : option Z :=
  match last_rowid (posts d) with
  | Some l =>
      if (l =? INT64_MAX) || (sqlite_sequence d =? INT64_MAX) then None
      else Some (Z.max (l + 1) (sqlite_sequence d + 1))
  | None =>
      if sqlite_sequence d =? INT64_MAX then None
      else Some (Z.max 1 (sqlite_sequence d + 1))
  end.

(** [INSERT INTO posts (title, content, published, rating) VALUES (?, ?, ?, ?)] *)
Definition execute_insert (title content : string) (published : bool)
    (rating : option Z) : Action Cursor :=
  fun conn =>
    if fits_optional rating then
      let d := working conn in
      match next_rowid d with
      | Some new_id =>
          let row := {| row_id := new_id; row_title := title; row_content := content;
                        row_published := adapt_bool published; row_rating := rating |} in
          (Return {| selected := []; rowcount := 1 |},
           {| owner := owner conn;
              committed := committed conn;
              working := {| posts := posts d ++ [row]; sqlite_sequence := new_id |};
              last_insert_rowid := new_id |})
      | None => (Raise "OperationalError", conn)          (* database or disk is full *)
      end
    else (Raise "OverflowError", conn).

(** [SELECT * FROM posts] *)
Definition execute_select_all : Action Cursor :=
  fun conn => (Return {| selected := posts (working conn); rowcount := -1 |}, conn).

(** The rows [WHERE id = ?] keeps. *)
Definition where_id (id : Z) (rows : list Row) : list Row :=
  filter (fun r => row_id r = id) rows.

(** [SELECT * FROM posts WHERE id = ?] *)
Definition execute_select_by_id (id : Z) : Action Cursor :=
  fun conn =>
    if fits_int64 id
    then (Return {| selected := where_id id (posts (working conn)); rowcount := -1 |}, conn)
    else (Raise "OverflowError", conn).

(** [SELECT * FROM posts WHERE id = last_insert_rowid()] *)
Definition execute_select_last_insert : Action Cursor :=
  fun conn =>
    (Return {| selected := where_id (last_insert_rowid conn) (posts (working conn));
               rowcount := -1 |}, conn).

(** [DELETE FROM posts WHERE id = ?] *)
Definition execute_delete (id : Z) : Action Cursor :=
  fun conn =>
    if fits_int64 id then
      let d := working conn in
      (Return {| selected := [];
                 rowcount := Z.of_nat (length (where_id id (posts d))) |},
       {| owner := owner conn;
          committed := committed conn;
          working := {| posts := filter (fun r => row_id r ≠ id) (posts d);
                        sqlite_sequence := sqlite_sequence d |};
          last_insert_rowid := last_insert_rowid conn |})
    else (Raise "OverflowError", conn).

Definition set_columns (title content : string) (published : bool)
    (rating : option Z) (id : Z) (r : Row) : Row :=
  if decide (row_id r = id)
  then {| row_id := row_id r; row_title := title; row_content := content;
          row_published := adapt_bool published; row_rating := rating |}
  else r.

(** [UPDATE posts SET title = ?, content = ?, published = ?, rating = ? WHERE id = ?] *)
Definition execute_update (title content : string) (published : bool)
    (rating : option Z) (id : Z) : Action Cursor :=
  fun conn =>
    if fits_optional rating && fits_int64 id then
      let d := working conn in
      (Return {| selected := [];
                 rowcount := Z.of_nat (length (where_id id (posts d))) |},
       {| owner := owner conn;
          committed := committed conn;
          working := {| posts := set_columns title content published rating id <$> posts d;
                        sqlite_sequence := sqlite_sequence d |};
          last_insert_rowid := last_insert_rowid conn |})
    else (Raise "OverflowError", conn).

Definition fetchone (c : Cursor) : option Row := head (selected c).
Definition fetchall (c : Cursor) : list Row := selected c.

(** [init_db] on a missing file: the table is created empty. *)
Definition init_db : Database := {| posts := []; sqlite_sequence := 0 |}.

(** What PRIMARY KEY and AUTOINCREMENT maintain in a table that only the
    handlers write: rowids are unique 64-bit values, none exceeds the
    recorded sequence, and the sequence is a 64-bit value that is not
    negative. *)
Definition consistent (d : Database) : Prop :=
  NoDup (row_id <$> posts d)
  ∧ Forall (fun r => INT64_MIN ≤ row_id r ≤ sqlite_sequence d) (posts d)
  ∧ 0 ≤ sqlite_sequence d ≤ INT64_MAX.

End Sqlite.

Import Sqlite.

(* ===================================================================== *)
(** ** The application: models, handlers, rejection callback *)
(* ===================================================================== *)

Module App.

(** [[
    class Post(BaseModel):
        title: str
        content: str
        published: bool = True
        rating: Optional[int] = None
    ]] *)
Record Post : Type := {
  title : string;
  content : string;
  published : bool;
  rating : option Z
}.

(** A JSON request body that passes validation: the two required fields,
    and the optional ones where the client sent them ([rating] may be sent
    as [null]). *)
Record PostBody : Type := {
  body_title : string;
  body_content : string;
  body_published : option bool;
  body_rating : option (option Z)
}.

(** Pydantic's construction of [Post] from the body: a missing field takes
    its declared default. *)
Definition parse_Post (b : PostBody) : Post :=
  {| title := body_title b;
     content := body_content b;
     published := default true (body_published b);
     rating := default None (body_rating b) |}.

(** What a handler returns, before JSON encoding. *)
Inductive Body : Type :=
| Message (text : string)          (* {"message": text} *)
| Data (row : Row)                 (* {"data": dict(row)} *)
| DataList (rows : list Row)       (* {"data": [dict(post) for post in posts]} *)
| PostDetail (row : Row)           (* {"post_detail": dict(row)} *)
| StatusOnly (status : Z).         (* Response(status_code=status) *)

(** [[
    async def custom_callback(request, response, pexpire: int):
        expire = ceil(pexpire / 1000)
        raise HTTPException(
            status.HTTP_429_TOO_MANY_REQUESTS,
            f"Too Many Requests. Retry after {expire} seconds.",
            headers={"Retry-After": str(expire)},
        )
    ]]
    [request] and [response] are not used. *)
Definition custom_callback {A : Type} (pexpire : Z) : outcome A :=
  match Py.ceil_truediv pexpire 1000 with
  | Py.Val expire =>
      RaiseHTTP {| status_code := HTTP_429_TOO_MANY_REQUESTS;
                   detail := "Too Many Requests. Retry after " +:+ Py.str expire +:+ " seconds.";
                   headers := Some [("Retry-After", Py.str expire)] |}
  | Py.Exc cls => Raise cls
  end.

(** [root] *)
Definition root : outcome Body := Return (Message "Hello World!!!").

(** The handlers that follow have the same body in both files; [thread] is
    where the body runs: a worker for the [def] of [appWithSqlite.py], the
    event loop for the [async def] of [appWithLimiter.py]. *)

(** [get_posts] *)
Definition get_posts (thread : ThreadId) : Action Body :=
  let* _ := cursor thread in
  let* cursor := execute_select_all in
  let posts := fetchall cursor in
  ret (DataList posts).

(** [create_posts] *)
Definition create_posts (thread : ThreadId) (post : Post) : Action Body :=
  let* _ := cursor thread in
  let* _ := execute_insert (title post) (content post) (published post) (rating post) in
  let* _ := commit in
  let* cursor := execute_select_last_insert in
  let new_post := fetchone cursor in
  match new_post with
  | Some row => ret (Data row)
  | None => raise "TypeError"                  (* dict(None) *)
  end.

(** [get_post] *)
Definition get_post (thread : ThreadId) (id : Z) : Action Body :=
  let* _ := cursor thread in
  let* cursor := execute_select_by_id id in
  let post := fetchone cursor in
  match post with
  | None =>
      raise_http {| status_code := HTTP_404_NOT_FOUND;
                    detail := "post with id: " +:+ Py.str id +:+ " was not found";
                    headers := None |}
  | Some row => ret (PostDetail row)
  end.

(** [delete_post] *)
Definition delete_post (thread : ThreadId) (id : Z) : Action Body :=
  let* _ := cursor thread in
  let* cursor := execute_delete id in
  let* _ := commit in
  if rowcount cursor =? 0
  then raise_http {| status_code := HTTP_404_NOT_FOUND;
                     detail := "post with id: " +:+ Py.str id +:+ " does not exist";
                     headers := None |}
  else ret (StatusOnly HTTP_204_NO_CONTENT).

(** [update_post] *)
Definition update_post (thread : ThreadId) (id : Z) (post : Post) : Action Body :=
  let* _ := cursor thread in
  let* cursor :=
    execute_update (title post) (content post) (published post) (rating post) id in
  let* _ := commit in
  if rowcount cursor =? 0
  then raise_http {| status_code := HTTP_404_NOT_FOUND;
                     detail := "post with id: " +:+ Py.str id +:+ " does not exist";
                     headers := None |}
  else
    let* cursor := execute_select_by_id id in
    let updated_post := fetchone cursor in
    match updated_post with
    | Some row => ret (Data row)
    | None => raise "TypeError"                (* dict(None) *)
    end.

(** [get_db]: a [def] generator, so the dependency runs on a worker: it
    opens the connection there for the handler and closes it when the
    handler is done, on every path. *)
Definition get_db {A : Type} (handler : Action A) (file : Database)
    : outcome A * Database :=
  let '(a, conn) := handler (connect Worker file) in (a, close conn).

(** The response a client sees. *)
Record Response : Type := {
  status : Z;
  body : option Body;
  error_detail : option string;
  response_headers : option (list (string * string))
}.

(** The framework's rendering of a handler's outcome, for a route declared
    with [status_code] (200 when the decorator gives none); an exception
    that is not an [HTTPException] becomes a 500. *)
Definition respond (route_status : Z) (o : outcome Body) : Response :=
  match o with
  | Return (StatusOnly s) =>
      {| status := s; body := None; error_detail := None; response_headers := None |}
  | Return b =>
      {| status := route_status; body := Some b; error_detail := None;
         response_headers := None |}
  | RaiseHTTP e =>
      {| status := status_code e; body := None; error_detail := Some (detail e);
         response_headers := headers e |}
  | Raise _ =>
      {| status := HTTP_500_INTERNAL_SERVER_ERROR; body := None;
         error_detail := Some "Internal Server Error"; response_headers := None |}
  end.

(** The two applications of the repository. *)
Inductive Application : Set :=
| appWithSqlite            (* handlers written with [def] *)
| appWithLimiter.          (* handlers written with [async def] *)

(** The thread the handlers of an application run on. *)
Definition handler_thread (app : Application) : ThreadId :=
  match app with
  | appWithSqlite => Worker
  | appWithLimiter => Loop
  end.

(** The requests the six routes accept. *)
Inductive Request : Type :=
| GET_root
| GET_posts
| POST_posts (b : PostBody)
| GET_posts_id (id : Z)
| DELETE_posts_id (id : Z)
| PUT_posts_id (id : Z) (b : PostBody).

(** One request served by its handler (in [appWithLimiter.py], once the
    limiter has admitted it). *)
Definition serve (app : Application) (req : Request) (file : Database)
    : Response * Database :=
  let thread := handler_thread app in
  match req with
  | GET_root => (respond HTTP_200_OK root, file)
  | GET_posts =>
      let '(o, file) := get_db (get_posts thread) file in (respond HTTP_200_OK o, file)
  | POST_posts b =>
      let '(o, file) := get_db (create_posts thread (parse_Post b)) file in
      (respond HTTP_201_CREATED o, file)
  | GET_posts_id id =>
      let '(o, file) := get_db (get_post thread id) file in (respond HTTP_200_OK o, file)
  | DELETE_posts_id id =>
      let '(o, file) := get_db (delete_post thread id) file in
      (respond HTTP_204_NO_CONTENT o, file)
  | PUT_posts_id id b =>
      let '(o, file) := get_db (update_post thread id (parse_Post b)) file in
      (respond HTTP_200_OK o, file)
  end.

(** A sequence of requests served one after the other. *)
Fixpoint serve_all (app : Application) (reqs : list Request) (file : Database)
    : list Response * Database :=
  match reqs with
  | [] => ([], file)
  | req :: reqs =>
      let '(r, file) := serve app req file in
      let '(rs, file) := serve_all app reqs file in
      (r :: rs, file)
  end.

(** The id a response to [POST /posts] reports as newly assigned. *)
Definition assigned_id (r : Response) : option Z :=
  if status r =? HTTP_201_CREATED
  then match body r with Some (Data row) => Some (row_id row) | _ => None end
  else None.

(** [RateLimiter(times=..., seconds=...)] *)
Record RateLimiter : Type := {
  times : Z;
  seconds : Z
}.

(** A route as its decorator registers it. *)
Record Route : Type := {
  route_method : Method;
  route_path : string;
  dependencies : list RateLimiter
}.

(** The routes of [appWithLimiter.py], in the order of the file. *)
Definition routes : list Route :=
  [ {| route_method := GET; route_path := "/";
       dependencies := [ {| times := 2; seconds := 5 |} ] |};
    {| route_method := GET; route_path := "/posts";
       dependencies := [ {| times := 30; seconds := 60 |} ] |};
    {| route_method := POST; route_path := "/posts";
       dependencies := [ {| times := 5; seconds := 60 |} ] |};
    {| route_method := GET; route_path := "/posts/{id}";
       dependencies := [ {| times := 20; seconds := 60 |} ] |};
    {| route_method := DELETE; route_path := "/posts/{id}";
       dependencies := [ {| times := 3; seconds := 60 |} ] |};
    {| route_method := PUT; route_path := "/posts/{id}";
       dependencies := [ {| times := 10; seconds := 60 |} ] |} ].

(** The limiters attached to a method and path template. *)
Definition limiters_of (m : Method) (path : string) : list RateLimiter :=
  concat (dependencies <$> filter (fun r => route_method r = m ∧ route_path r = path) routes).

End App.

Import App.

(* ===================================================================== *)
(** ** The rate limiter core

    [appWithLimiter.py] configures the limiter ([FastAPILimiter.init] with
    the Redis connection and [custom_callback]) and attaches one
    [RateLimiter] to each route; the evaluation itself is the package's.
    The definitions below follow sections 3 and 4.1 of the specification.
    Time is in milliseconds. *)
(* ===================================================================== *)

Module Limiter.

(** Modelled from the spec: the key of a counter, "composite of (client
    identifier, route identifier)", the route identifier being "the
    combination of HTTP method and path template". *)
Record RateLimitKey : Type := {
  client : string;
  method : Method;
  path_template : string
}.

#[global] Instance RateLimitKey_eq_dec : EqDecision RateLimitKey.
Proof. solve_decision. Defined.

#[global] Instance Method_countable : Countable Method.
Proof.
  refine (inj_countable'
    (fun m => match m with GET => 0%nat | POST => 1%nat | PUT => 2%nat | DELETE => 3%nat end)
    (fun n => match n with 0%nat => GET | 1%nat => POST | 2%nat => PUT | _ => DELETE end) _).
  intros []; reflexivity.
Defined.

#[global] Instance RateLimitKey_countable : Countable RateLimitKey.
Proof.
  refine (inj_countable'
    (fun k => (client k, method k, path_template k))
    (fun t => {| client := t.1.1; method := t.1.2; path_template := t.2 |}) _).
  intros []; reflexivity.
Defined.

(** Modelled from the spec: the request context [evaluate] reads, "the
    resolved route identifier and caller identifier". *)
Record RequestContext : Type := {
  peer_address : string;
  request_method : Method;
  route_template : string
}.

(** Modelled from the spec: step 1 of [evaluate], "derive the key". *)
Definition derive_key (ctx : RequestContext) : RateLimitKey :=
  {| client := peer_address ctx;
     method := request_method ctx;
     path_template := route_template ctx |}.

(** Modelled from the spec: "per-route configuration:
    {maxRequests: positive integer, windowSeconds: positive number}". *)
Record RateLimitPolicy : Type := {
  maxRequests : Z;
  windowSeconds : Z
}.

(** Modelled from the spec: [attach], the policy a route's
    [RateLimiter(times, seconds)] declares. *)
Definition attach (l : RateLimiter) : RateLimitPolicy :=
  {| maxRequests := times l; windowSeconds := seconds l |}.

(** Modelled from the spec: the counter of a key in the shared store, "number
    of requests consumed in the current window, and the time remaining
    until the window resets"; the remaining time at [now] is
    [expires_at - now]. *)
Record RateLimitState : Type := {
  count : Z;
  expires_at : Z
}.

(** The shared counter store. *)
Abbreviation Store := (gmap RateLimitKey RateLimitState).

(** Modelled from the spec: a counter "expires automatically when its window
    elapses (no explicit deletion)": with a time-to-live of [w]
    milliseconds set at [t] it is there at [t <= now < t + w]. *)
Definition lookup_live (key : RateLimitKey) (now : Z) (store : Store)
    : option RateLimitState :=
  match store !! key with
  | Some st => if now <? expires_at st then Some st else None
  | None => None
  end.

(** Modelled from the spec: steps 2 and 3 of [evaluate], one atomic
    operation of the store: "atomically increment the counter for that key
    in the shared store; if the key is new (no existing counter or expired
    window), initialize it with a time-to-live equal to windowSeconds and
    count = 1", then "read back the current count and the remaining
    time-to-live". *)
Definition increment (policy : RateLimitPolicy) (key : RateLimitKey) (now : Z)
    (store : Store) : (Z * Z) * Store :=
  let st :=
    match lookup_live key now store with
    | Some st => {| count := count st + 1; expires_at := expires_at st |}
    | None => {| count := 1; expires_at := now + 1000 * windowSeconds policy |}
    end in
  ((count st, expires_at st - now), <[ key := st ]> store).

Inductive Decision : Type :=
| Admit
| Reject (retryAfterMillis : Z).

#[global] Instance Decision_eq_dec : EqDecision Decision.
Proof. solve_decision. Defined.

(** Modelled from the spec: steps 4 and 5 of [evaluate], "if count <=
    maxRequests: Decision = Admit; else: Decision = Reject, carrying
    retryAfterMillis = remaining_ttl". *)
Definition decide_count (policy : RateLimitPolicy) (r : Z * Z) : Decision :=
  if r.1 <=? maxRequests policy then Admit else Reject r.2.

(** Modelled from the spec: [evaluate(requestContext) -> Decision]. *)
Definition evaluate (policy : RateLimitPolicy) (ctx : RequestContext) (now : Z)
    (store : Store) : Decision * Store :=
  let key := derive_key ctx in
  let '(r, store) := increment policy key now store in
  (decide_count policy r, store).

(** Modelled from the spec: requests evaluated one after the other, each
    with its policy, context and arrival time. *)
Fixpoint evaluate_all (reqs : list (RateLimitPolicy * RequestContext * Z))
    (store : Store) : list Decision * Store :=
  match reqs with
  | [] => ([], store)
  | (policy, ctx, now) :: reqs =>
      let '(d, store) := evaluate policy ctx now store in
      let '(ds, store) := evaluate_all reqs store in
      (d :: ds, store)
  end.

(** Modelled from the spec: "when evaluate returns Reject, the core invokes
    a single injected callback with (requestContext, responseContext,
    retryAfterMillis)", here [custom_callback]; an admitted request goes to
    its handler. *)
Definition throttled (policy : RateLimitPolicy) (ctx : RequestContext) (now : Z)
    (req : Request) (world : Store * Database) : Response * (Store * Database) :=
  let '(d, store) := evaluate policy ctx now world.1 in
  match d with
  | Admit => let '(r, file) := serve appWithLimiter req world.2 in (r, (store, file))
  | Reject pexpire => (respond HTTP_200_OK (custom_callback pexpire), (store, world.2))
  end.

End Limiter.

Import Limiter.

(* ===================================================================== *)
(** ** Simultaneous requests

    Each request in flight runs [evaluate] in two moves: the store's atomic
    increment, which hands it a count and a remaining time, then its own
    comparison with the limit.  A scheduler interleaves the moves of the
    requests in any order. *)
(* ===================================================================== *)

Module Race.

(** Modelled from the spec: a request in flight, at one of the steps of
    [evaluate]. *)
Inductive Thread : Type :=
| Waiting                       (* has not reached the store yet *)
| Counted (r : Z * Z)           (* holds the count and remaining time read back *)
| Done (d : Decision).

(** The shared store and the requests in flight. *)
Definition Config : Type := gmap RateLimitKey RateLimitState * list Thread.

(** Modelled from the spec: the next move of request [i], if it has one;
    "the atomic-increment contract in 4.1 step 2 is the sole
    synchronization primitive". *)
Definition fire (policy : RateLimitPolicy) (key : RateLimitKey) (now : Z)
    (i : nat) (c : Config) : option Config :=
  match c.2 !! i with
  | Some Waiting =>
      let '(r, store) := increment policy key now c.1 in
      Some (store, <[ i := Counted r ]> c.2)
  | Some (Counted r) => Some (c.1, <[ i := Done (decide_count policy r) ]> c.2)
  | Some (Done _) | None => None
  end.

(** Modelled from the spec: "many concurrent in-process requests"; a
    schedule names the request that moves at each step. *)
Fixpoint run (policy : RateLimitPolicy) (key : RateLimitKey) (now : Z)
    (schedule : list nat) (c : Config) : option Config :=
  match schedule with
  | [] => Some c
  | i :: schedule =>
      match fire policy key now i c with
      | Some c => run policy key now schedule c
      | None => None
      end
  end.

Definition is_done (t : Thread) : bool :=
  match t with Done _ => true | _ => false end.

Definition is_admitted (t : Thread) : bool :=
  match t with Done Admit => true | _ => false end.

Definition is_rejected (t : Thread) : bool :=
  match t with Done (Reject _) => true | _ => false end.

Definition all_done (c : Config) : bool := forallb is_done c.2.

(** The requests admitted, and those rejected, so far. *)
Definition admitted (c : Config) : nat :=
  length (filter (fun t => is_admitted t = true) c.2).

Definition rejected (c : Config) : nat :=
  length (filter (fun t => is_rejected t = true) c.2).

(** Modelled from the spec: "firing max + k simultaneous requests for one
    key"; [n] requests arrive together. *)
Definition start (store : gmap RateLimitKey RateLimitState) (n : nat) : Config :=
  (store, replicate n Waiting).

(** How many requests in flight satisfy [f]. *)
Definition tally (f : Thread → bool) (l : list Thread) : nat :=
  length (filter (fun t => f t = true) l).

Arguments tally : simpl never.

(** Has been through the store's increment. *)
Definition has_count (t : Thread) : bool :=
  match t with Waiting => false | _ => true end.

(** Holds a count within the limit, not yet compared. *)
Definition holds_within (policy : RateLimitPolicy) (t : Thread) : bool :=
  match t with Counted r => r.1 <=? maxRequests policy | _ => false end.

(** Holds a count over the limit, not yet compared. *)
Definition holds_over (policy : RateLimitPolicy) (t : Thread) : bool :=
  match t with Counted r => negb (r.1 <=? maxRequests policy) | _ => false end.

Definition is_waiting (t : Thread) : bool :=
  match t with Waiting => true | _ => false end.

Definition is_counted (t : Thread) : bool :=
  match t with Counted _ => true | _ => false end.

(** The moves the requests in flight still have to make. *)
Definition remaining (l : list Thread) : nat :=
  (2 * tally is_waiting l + tally is_counted l)%nat.

(** How many requests the store has counted. *)
Definition issued (c : Config) : Z := Z.of_nat (tally has_count c.2).

(** What every interleaving keeps: the store has counted the requests that
    reached it, and those are split between the limit and the excess. *)
Definition balanced (policy : RateLimitPolicy) (key : RateLimitKey) (now : Z)
    (c : Config) : Prop :=
  (issued c = 0 ∧ lookup_live key now c.1 = None
   ∨ 0 < issued c
     ∧ c.1 !! key = Some {| count := issued c;
                            expires_at := now + 1000 * windowSeconds policy |})
  ∧ Z.of_nat (tally is_admitted c.2 + tally (holds_within policy) c.2)
    = Z.min (issued c) (maxRequests policy)
  ∧ Z.of_nat (tally is_rejected c.2 + tally (holds_over policy) c.2)
    = issued c - Z.min (issued c) (maxRequests policy).

End Race.

Import Race.

(* ===================================================================== *)
(** ** Vocabulary of the statements *)
(* ===================================================================== *)

(** The floating-point computation of the callback agrees with the exact
    ceiling at [p]. *)
Definition ceil_agrees (p : Z) : bool :=
  match Py.ceil_truediv p 1000 with
  | Py.Val e => e =? Py.exact_ceil p 1000
  | Py.Exc _ => false
  end.

(** [ceil_agrees] at the [n] integers from [p] on. *)
Fixpoint ceil_agrees_from (n : nat) (p : Z) : bool :=
  match n with
  | O => true
  | S n => ceil_agrees p && ceil_agrees_from n (p + 1)
  end.

(** The exception the handlers raise for a missing post; [what] is the end
    of the message. *)
Definition not_found (id : Z) (what : string) : HTTPException :=
  {| status_code := 404;
     detail := "post with id: " +:+ Py.str id +:+ what;
     headers := None |}.

(** What the client gets for an outcome raised as 404. *)
Definition response_404 (id : Z) (what : string) : Response :=
  {| status := 404; body := None;
     error_detail := Some ("post with id: " +:+ Py.str id +:+ what);
     response_headers := None |}.

Definition response_with (st : Z) (b : Body) : Response :=
  {| status := st; body := Some b; error_detail := None; response_headers := None |}.


(** The requests of one caller on one route at the given times. *)
Definition arrivals (policy : RateLimitPolicy) (ctx : RequestContext) (ts : list Z)
    : list (RateLimitPolicy * RequestContext * Z) :=
  (fun t => (policy, ctx, t)) <$> ts.

(** What the client gets when a handler raises anything but an
    [HTTPException]. *)
Definition response_500 : Response :=
  {| status := 500; body := None; error_detail := Some "Internal Server Error";
     response_headers := None |}.

(** Sample data. *)
Definition two_posts : Database :=
  {| posts := [ {| row_id := 1; row_title := "a"; row_content := "x";
                   row_published := 1; row_rating := None |};
                {| row_id := 3; row_title := "b"; row_content := "y";
                   row_published := 0; row_rating := Some 4 |} ];
     sqlite_sequence := 3 |}.

Definition untitled : PostBody :=
  {| body_title := "t"; body_content := "c"; body_published := None; body_rating := None |}.

(** The rating a body binds, after Pydantic's default. *)
Definition bound_rating (b : PostBody) : option Z := default None (body_rating b).

(** A body whose rating is the given integer. *)
Definition rated (n : Z) : PostBody :=
  {| body_title := "t"; body_content := "c"; body_published := None;
     body_rating := Some (Some n) |}.


Definition root_policy : RateLimitPolicy := attach {| times := 2; seconds := 5 |}.

Definition alice : RequestContext :=
  {| peer_address := "10.0.0.1"; request_method := GET; route_template := "/" |}.

Definition bob : RequestContext :=
  {| peer_address := "10.0.0.2"; request_method := GET; route_template := "/" |}.


(* ===================================================================== *)
(** ** Vocabulary of the further properties *)
(* ===================================================================== *)

(** The integers a request makes the driver bind are all 64-bit values. *)
Definition binds (req : Request) : bool :=
  match req with
  | GET_root | GET_posts => true
  | POST_posts b => fits_optional (bound_rating b)
  | GET_posts_id id | DELETE_posts_id id => fits_int64 id
  | PUT_posts_id id b => fits_optional (bound_rating b) && fits_int64 id
  end.

(** The requests of the five routes that open the database. *)
Definition uses_db (req : Request) : bool :=
  match req with GET_root => false | _ => true end.

(** Rows in increasing id order, in a consistent table. *)
Definition ordered (d : Database) : Prop :=
  StronglySorted Z.lt (row_id <$> posts d) ∧ consistent d.


(** How many of the responses carry the status [st]. *)
Definition with_status (st : Z) (rs : list Response) : Z :=
  Z.of_nat (length (filter (fun r => status r = st) rs)).

(* ===================================================================== *)
(** * Properties *)
(* ===================================================================== *)

(** ** The rejection callback *)

Section Callback.

Lemma exact_ceil_spec (a b : Z) :
  0 < b → b * (Py.exact_ceil a b - 1) < a ≤ b * Py.exact_ceil a b.
Proof.
  intros Hb. unfold Py.exact_ceil.
  pose proof (Z.mul_div_le (- a) b Hb).
  pose proof (Z.mul_succ_div_gt (- a) b Hb).
  lia.
Qed.

(** The whole seconds are determined by the bounds [exact_ceil_spec] gives. *)
Lemma exact_ceil_unique (a b e : Z) :
  0 < b → b * (e - 1) < a ≤ b * e → e = Py.exact_ceil a b.
Proof.
  intros Hb He. pose proof (exact_ceil_spec a b Hb). nia.
Qed.

Lemma ceil_agrees_from_spec (n : nat) (p q : Z) :
  ceil_agrees_from n p = true → p ≤ q < p + Z.of_nat n → ceil_agrees q = true.
Proof.
  revert p. induction n as [|n IH]; intros p H Hq; [lia|].
  cbn [ceil_agrees_from] in H. apply andb_prop in H as [H0 H1].
  destruct (decide (q = p)) as [->|Hne]; [exact H0|].
  apply (IH (p + 1) H1). lia.
Qed.

(** Every remaining time up to the longest window of the application (60
    seconds), checked one by one on the hardware floats. *)
Lemma ceil_agrees_upto_60000 : ceil_agrees_from (Z.to_nat 60001) 0 = true.
Proof. vm_compute. reflexivity. Qed.

Lemma ceil_truediv_exact (p : Z) :
  0 ≤ p ≤ 60000 → Py.ceil_truediv p 1000 = Py.Val (Py.exact_ceil p 1000).
Proof.
  intros Hp.
  assert (ceil_agrees p = true) as H
    by (apply (ceil_agrees_from_spec _ 0 p ceil_agrees_upto_60000); lia).
  unfold ceil_agrees in H.
  destruct (Py.ceil_truediv p 1000) as [e|cls]; [|discriminate H].
  f_equal. by apply Z.eqb_eq.
Qed.

(** Far beyond any window of the application the quotient is no longer
    exact in binary64 and the two ceilings part. *)
Example ceil_truediv_inexact :
  Py.ceil_truediv (1000 * 2 ^ 44 + 1) 1000 = Py.Val (2 ^ 44)
  ∧ Py.exact_ceil (1000 * 2 ^ 44 + 1) 1000 = 2 ^ 44 + 1.
Proof. split; vm_compute; reflexivity. Qed.

Lemma window_of_route (l : RateLimiter) :
  In l (concat (dependencies <$> routes)) → 0 < seconds l ≤ 60 ∧ 0 < times l.
Proof.
  cbn. intros H.
  repeat (destruct H as [<- | H]; [cbn; lia |]). destruct H.
Qed.

(** C2.  A request rejected on any of the six routes, with [pexpire]
    milliseconds left in its window, makes the callback raise an
    [HTTPException] with status 429 whose [Retry-After] header is
    [str(expire)], where [expire] is the ceiling of [pexpire / 1000] (the
    one integer with [1000 * (expire - 1) < pexpire <= 1000 * expire]), and
    whose message holds the same [str(expire)]; the client sees that
    status, message and header. *)
Theorem custom_callback_retry_after (l : RateLimiter) (pexpire : Z) :
  In l (concat (dependencies <$> routes)) →
  0 ≤ pexpire ≤ 1000 * seconds l →
  ∃ expire : Z,
    1000 * (expire - 1) < pexpire ≤ 1000 * expire
    ∧ custom_callback (A := Body) pexpire =
        RaiseHTTP {| status_code := 429;
                     detail := "Too Many Requests. Retry after " +:+ Py.str expire +:+ " seconds.";
                     headers := Some [("Retry-After", Py.str expire)] |}
    ∧ respond HTTP_200_OK (custom_callback pexpire) =
        {| status := 429;
           body := None;
           error_detail :=
             Some ("Too Many Requests. Retry after " +:+ Py.str expire +:+ " seconds.");
           response_headers := Some [("Retry-After", Py.str expire)] |}.
Proof.
  intros Hl Hp.
  destruct (window_of_route l Hl) as [Hw _].
  exists (Py.exact_ceil pexpire 1000).
  split; [apply exact_ceil_spec; lia|].
  unfold custom_callback.
  rewrite ceil_truediv_exact by lia.
  split; reflexivity.
Qed.

Lemma custom_callback_retry_after_witness :
  ∃ expire : Z,
    1000 * (expire - 1) < 4800 ≤ 1000 * expire
    ∧ custom_callback (A := Body) 4800 =
        RaiseHTTP {| status_code := 429;
                     detail := "Too Many Requests. Retry after " +:+ Py.str expire +:+ " seconds.";
                     headers := Some [("Retry-After", Py.str expire)] |}
    ∧ respond HTTP_200_OK (custom_callback 4800) =
        {| status := 429;
           body := None;
           error_detail :=
             Some ("Too Many Requests. Retry after " +:+ Py.str expire +:+ " seconds.");
           response_headers := Some [("Retry-After", Py.str expire)] |}.
Proof.
  apply (custom_callback_retry_after {| times := 2; seconds := 5 |} 4800).
  - simpl. left. reflexivity.
  - simpl. lia.
Defined.

End Callback.

(** ** The table *)

Section Table.

Implicit Types (rows : list Row) (row r : Row) (id : Z) (file : Database).

Lemma fits_int64_spec (n : Z) : fits_int64 n = true ↔ INT64_MIN ≤ n ≤ INT64_MAX.
Proof. unfold fits_int64. rewrite andb_true_iff, !Z.leb_le. tauto. Qed.

Lemma last_rowid_ge rows r :
  r ∈ rows → ∃ l, last_rowid rows = Some l ∧ row_id r ≤ l.
Proof.
  induction rows as [|r' rows IH]; intros Hin; [by apply not_elem_of_nil in Hin|].
  change (last_rowid (r' :: rows))
    with (Some (match last_rowid rows with
                | Some x => Z.max (row_id r') x
                | None => row_id r'
                end)).
  apply elem_of_cons in Hin as [->|Hin].
  - destruct (last_rowid rows); eexists; (split; [reflexivity|lia]).
  - destruct (IH Hin) as (l & -> & Hl). eexists. split; [reflexivity|lia].
Qed.

(** The largest rowid is the rowid of a row. *)
Lemma last_rowid_in rows l :
  last_rowid rows = Some l → ∃ r, r ∈ rows ∧ row_id r = l.
Proof.
  revert l. induction rows as [|r' rows IH]; intros l; [discriminate|].
  change (last_rowid (r' :: rows))
    with (Some (match last_rowid rows with
                | Some x => Z.max (row_id r') x
                | None => row_id r'
                end)).
  destruct (last_rowid rows) as [x|].
  - intros [= <-]. destruct (IH x eq_refl) as (r & Hr & Hx).
    destruct (Z.max_spec (row_id r') x) as [[_ ->]|[_ ->]].
    + exists r. split; [by right|exact Hx].
    + exists r'. split; [left|reflexivity].
  - intros [= <-]. exists r'. split; [left|reflexivity].
Qed.

Lemma next_rowid_fresh file v r :
  next_rowid file = Some v → r ∈ posts file → row_id r < v.
Proof.
  intros Hnext Hin. apply last_rowid_ge in Hin as (l & Hl & Hle).
  unfold next_rowid in Hnext. rewrite Hl in Hnext.
  destruct (_ || _); [discriminate|]. injection Hnext as <-. lia.
Qed.

Lemma next_rowid_above_sequence file v :
  next_rowid file = Some v → sqlite_sequence file < v.
Proof.
  unfold next_rowid. destruct (last_rowid _).
  - destruct (_ || _); [discriminate|]. intros [= <-]. lia.
  - destruct (_ =? _); [discriminate|]. intros [= <-]. lia.
Qed.

(** In a consistent table AUTOINCREMENT picks the sequence plus one, until
    the sequence is used up. *)
Lemma next_rowid_consistent file :
  consistent file →
  next_rowid file = if sqlite_sequence file =? INT64_MAX then None
                    else Some (sqlite_sequence file + 1).
Proof.
  intros (_ & Hle & Hseq). unfold next_rowid.
  destruct (last_rowid (posts file)) as [l|] eqn:Hl.
  - apply last_rowid_in in Hl as (r & Hr & <-).
    rewrite Forall_forall in Hle. apply Hle in Hr.
    destruct (sqlite_sequence file =? INT64_MAX) eqn:Hmax.
    + by rewrite orb_true_r.
    + apply Z.eqb_neq in Hmax.
      replace (row_id r =? INT64_MAX) with false by (symmetry; apply Z.eqb_neq; lia).
      cbn [orb]. f_equal. lia.
  - destruct (sqlite_sequence file =? INT64_MAX); [reflexivity|]. f_equal. lia.
Qed.

(** No row matches [WHERE id = ?]. *)
Lemma select_none rows id :
  (∀ r, r ∈ rows → row_id r ≠ id) → where_id id rows = [].
Proof.
  intros Hne. unfold where_id. induction rows as [|r rows IH]; [reflexivity|].
  rewrite filter_cons_False by (apply Hne; left).
  apply IH. intros r' Hr'. apply Hne. by right.
Qed.

Lemma select_none_inv rows id r :
  where_id id rows = [] → r ∈ rows → row_id r ≠ id.
Proof.
  intros Hnil Hin Heq.
  assert (r ∈ where_id id rows) as H by (apply list_elem_of_filter; done).
  rewrite Hnil in H. by apply not_elem_of_nil in H.
Qed.

(** With [id] a key, a table splits around the row that holds it. *)
Lemma split_at_key rows row :
  NoDup (row_id <$> rows) → row ∈ rows →
  ∃ before after,
    rows = before ++ row :: after
    ∧ (∀ r, r ∈ before → row_id r ≠ row_id row)
    ∧ (∀ r, r ∈ after → row_id r ≠ row_id row).
Proof.
  intros Hnd Hin.
  apply list_elem_of_split in Hin as (before & after & ->).
  exists before, after. split; [reflexivity|].
  rewrite fmap_app, fmap_cons in Hnd.
  apply NoDup_app in Hnd as (_ & Hdisj & Hnd).
  apply NoDup_cons in Hnd as [Hnotin _].
  split; intros r Hr Heq.
  - apply (Hdisj (row_id r)); [by apply list_elem_of_fmap_2|].
    rewrite Heq. left.
  - apply Hnotin. rewrite <- Heq. by apply list_elem_of_fmap_2.
Qed.

Lemma select_split before after row :
  (∀ r, r ∈ before → row_id r ≠ row_id row) →
  (∀ r, r ∈ after → row_id r ≠ row_id row) →
  where_id (row_id row) (before ++ row :: after) = [row].
Proof.
  intros Hb Ha. pose proof (select_none before _ Hb) as Hb'.
  pose proof (select_none after _ Ha) as Ha'. unfold where_id in *.
  rewrite filter_app, filter_cons_True by reflexivity.
  by rewrite Hb', Ha'.
Qed.

Lemma delete_none rows id :
  (∀ r, r ∈ rows → row_id r ≠ id) → filter (fun r => row_id r ≠ id) rows = rows.
Proof.
  induction rows as [|r rows IH]; intros Hl; [reflexivity|].
  rewrite filter_cons_True by (apply Hl; left).
  f_equal. apply IH. intros r' Hr'. apply Hl. by right.
Qed.

Lemma delete_split before after row :
  (∀ r, r ∈ before → row_id r ≠ row_id row) →
  (∀ r, r ∈ after → row_id r ≠ row_id row) →
  filter (fun r => row_id r ≠ row_id row) (before ++ row :: after) = before ++ after.
Proof.
  intros Hb Ha.
  rewrite filter_app, filter_cons_False by (intros H; by apply H).
  by rewrite (delete_none before), (delete_none after).
Qed.

Lemma set_columns_other t c p rt id r :
  row_id r ≠ id → set_columns t c p rt id r = r.
Proof. intros Hne. unfold set_columns. by destruct (decide (row_id r = id)). Qed.

Lemma set_columns_id t c p rt id r :
  row_id (set_columns t c p rt id r) = row_id r.
Proof. unfold set_columns. by destruct (decide (row_id r = id)). Qed.

Lemma update_none t c p rt rows id :
  (∀ r, r ∈ rows → row_id r ≠ id) → set_columns t c p rt id <$> rows = rows.
Proof.
  induction rows as [|r rows IH]; intros Hl; [reflexivity|].
  rewrite fmap_cons, set_columns_other by (apply Hl; left).
  f_equal. apply IH. intros r' Hr'. apply Hl. by right.
Qed.

Lemma update_ids t c p rt rows id :
  row_id <$> (set_columns t c p rt id <$> rows) = row_id <$> rows.
Proof.
  rewrite <- list_fmap_compose. apply list_fmap_ext.
  intros _ r _. apply set_columns_id.
Qed.

Lemma update_split t c p rt before after row :
  (∀ r, r ∈ before → row_id r ≠ row_id row) →
  (∀ r, r ∈ after → row_id r ≠ row_id row) →
  set_columns t c p rt (row_id row) <$> (before ++ row :: after)
  = before ++ {| row_id := row_id row; row_title := t; row_content := c;
                 row_published := adapt_bool p; row_rating := rt |} :: after.
Proof.
  intros Hb Ha.
  rewrite fmap_app, fmap_cons, (update_none _ _ _ _ before), (update_none _ _ _ _ after)
    by assumption.
  unfold set_columns at 1. by rewrite decide_True.
Qed.

(** The rows of other ids are the same before and after an [UPDATE]. *)
Lemma update_others t c p rt rows id :
  filter (fun r => row_id r ≠ id) (set_columns t c p rt id <$> rows)
  = filter (fun r => row_id r ≠ id) rows.
Proof.
  induction rows as [|r rows IH]; [reflexivity|].
  rewrite fmap_cons. destruct (decide (row_id r = id)) as [Heq|Hne].
  - rewrite !filter_cons_False; [exact IH|by intros H|].
    rewrite set_columns_id. by intros H.
  - rewrite set_columns_other by exact Hne.
    rewrite !filter_cons_True by exact Hne. by rewrite IH.
Qed.

Lemma delete_twice rows id :
  filter (fun r => row_id r ≠ id) (filter (fun r => row_id r ≠ id) rows)
  = filter (fun r => row_id r ≠ id) rows.
Proof.
  apply delete_none. intros r Hr. by apply list_elem_of_filter in Hr as [Hr _].
Qed.

End Table.

(** ** The handlers *)

Section Handlers.

Implicit Types (rows : list Row) (row r : Row) (id : Z) (file : Database) (post : Post).

(** *** What each handler does on the thread of its connection *)

Lemma cursor_on_owner (thread : ThreadId) file :
  cursor thread (connect thread file) = (Return tt, connect thread file).
Proof. unfold cursor. cbn [owner connect]. by rewrite decide_True. Qed.

Lemma get_posts_unfold file :
  get_db (get_posts Worker) file = (Return (DataList (posts file)), file).
Proof. unfold get_db, get_posts, bind. by rewrite cursor_on_owner. Qed.

Lemma get_post_unfold id file :
  get_db (get_post Worker id) file =
  (if fits_int64 id
   then match head (where_id id (posts file)) with
        | None => RaiseHTTP (not_found id " was not found")
        | Some row => Return (PostDetail row)
        end
   else Raise "OverflowError", file).
Proof.
  unfold get_db, get_post, bind. rewrite cursor_on_owner.
  unfold execute_select_by_id, fetchone.
  destruct (fits_int64 id); [|reflexivity]. cbn.
  by destruct (head _).
Qed.

Lemma delete_post_unfold id file :
  get_db (delete_post Worker id) file =
  if fits_int64 id
  then (if Z.of_nat (length (where_id id (posts file))) =? 0
        then RaiseHTTP (not_found id " does not exist")
        else Return (StatusOnly 204),
        {| posts := filter (fun r => row_id r ≠ id) (posts file);
           sqlite_sequence := sqlite_sequence file |})
  else (Raise "OverflowError", file).
Proof.
  unfold get_db, delete_post, bind. rewrite cursor_on_owner.
  unfold execute_delete, commit.
  destruct (fits_int64 id); [|reflexivity]. cbn.
  by destruct (_ =? 0).
Qed.

Lemma update_post_unfold id post file :
  get_db (update_post Worker id post) file =
  if fits_optional (rating post) && fits_int64 id
  then (if Z.of_nat (length (where_id id (posts file))) =? 0
        then RaiseHTTP (not_found id " does not exist")
        else match head (where_id id
                           (set_columns (title post) (content post) (published post)
                              (rating post) id <$> posts file)) with
             | Some row => Return (Data row)
             | None => Raise "TypeError"
             end,
        {| posts := set_columns (title post) (content post) (published post)
                      (rating post) id <$> posts file;
           sqlite_sequence := sqlite_sequence file |})
  else (Raise "OverflowError", file).
Proof.
  unfold get_db, update_post, bind. rewrite cursor_on_owner.
  unfold execute_update, commit, fetchone, execute_select_by_id.
  destruct (fits_optional (rating post) && fits_int64 id) eqn:Hfits; [|reflexivity].
  apply andb_true_iff in Hfits as [_ Hid]. cbn.
  destruct (_ =? 0); [reflexivity|]. cbn. rewrite Hid. cbn.
  by destruct (head _).
Qed.

Lemma create_posts_unfold post file :
  get_db (create_posts Worker post) file =
  if fits_optional (rating post)
  then match next_rowid file with
       | Some new_id =>
           let row := {| row_id := new_id; row_title := title post;
                         row_content := content post;
                         row_published := adapt_bool (published post);
                         row_rating := rating post |} in
           (Return (Data row),
            {| posts := posts file ++ [row]; sqlite_sequence := new_id |})
       | None => (Raise "OperationalError", file)
       end
  else (Raise "OverflowError", file).
Proof.
  unfold get_db, create_posts, bind. rewrite cursor_on_owner.
  unfold execute_insert, commit, execute_select_last_insert, fetchone.
  cbn [working connect].
  destruct (fits_optional (rating post)); [|reflexivity].
  destruct (next_rowid file) as [new_id|] eqn:Hnext; [|reflexivity]. cbn.
  assert (where_id new_id (posts file) = []) as Hnone
    by (apply select_none; intros r Hr; apply (next_rowid_fresh _ _ _ Hnext) in Hr; lia).
  unfold where_id in *. rewrite filter_app, Hnone.
  rewrite filter_cons_True by reflexivity. reflexivity.
Qed.

(** *** What each handler does on the event loop *)

(** The first statement of every handler raises there. *)
Lemma cursor_on_loop {A : Type} (k : unit → Action A) file :
  get_db (let* u := cursor Loop in k u) file = (Raise "ProgrammingError", file).
Proof. reflexivity. Qed.

Lemma serve_appWithLimiter req file :
  serve appWithLimiter req file =
  (if uses_db req then response_500 else response_with 200 (Message "Hello World!!!"),
   file).
Proof. by destruct req. Qed.

(** *** What [appWithSqlite.py] answers *)

Lemma serve_GET_posts file :
  serve appWithSqlite GET_posts file = (response_with 200 (DataList (posts file)), file).
Proof. unfold serve. cbn [handler_thread]. by rewrite get_posts_unfold. Qed.

Lemma serve_unbound req file :
  uses_db req = true → binds req = false →
  serve appWithSqlite req file = (response_500, file).
Proof.
  intros Hdb Hb. destruct req as [| |b|id|id|id b]; try discriminate;
    cbn [binds] in Hb; unfold serve; cbn [handler_thread].
  - rewrite create_posts_unfold. unfold bound_rating in Hb.
    cbn [parse_Post rating]. by rewrite Hb.
  - by rewrite get_post_unfold, Hb.
  - by rewrite delete_post_unfold, Hb.
  - rewrite update_post_unfold. unfold bound_rating in Hb.
    cbn [parse_Post rating]. by rewrite Hb.
Qed.

(** *** Lookup, update and deletion *)

Lemma two_posts_consistent : consistent two_posts.
Proof.
  split; [|split]; cbn.
  - compute_done.
  - repeat constructor; cbn; unfold INT64_MIN; lia.
  - unfold INT64_MAX. lia.
Defined.

Lemma no_post_2_in_two_posts row : row ∈ posts two_posts → row_id row ≠ 2.
Proof.
  intros Hin. cbn in Hin.
  apply elem_of_cons in Hin as [->|Hin]; [cbn; lia|].
  apply elem_of_cons in Hin as [->|Hin]; [cbn; lia|].
  by apply not_elem_of_nil in Hin.
Defined.

(** The id of a stored record is a 64-bit value. *)
Lemma stored_id_fits file row :
  consistent file → row ∈ posts file → fits_int64 (row_id row) = true.
Proof.
  intros (_ & Hle & Hseq) Hin. rewrite Forall_forall in Hle. apply Hle in Hin.
  apply fits_int64_spec. lia.
Qed.

(** C7, as the specification states it, fails.  No record of the sample
    table has the id 2^63, and [GET /posts/{id}] of [appWithSqlite.py]
    answers that id with 500 where the specification says 404: the driver
    cannot bind it.  In [appWithLimiter.py] the record with id 1 is
    stored, and the answer to [GET /posts/1] is 500 where the
    specification says the record. *)
Lemma get_post_beyond_int64 :
  (∀ row, row ∈ posts two_posts → row_id row ≠ 2 ^ 63)
  ∧ serve appWithSqlite (GET_posts_id (2 ^ 63)) two_posts = (response_500, two_posts)
  ∧ status response_500 ≠ HTTP_404_NOT_FOUND
  ∧ (∃ row, row ∈ posts two_posts ∧ row_id row = 1)
  ∧ serve appWithLimiter (GET_posts_id 1) two_posts = (response_500, two_posts).
Proof.
  split; [|split; [|split; [|split]]].
  - intros row Hin. apply (stored_id_fits _ _ two_posts_consistent) in Hin.
    apply fits_int64_spec in Hin. unfold INT64_MAX in Hin. lia.
  - by apply serve_unbound.
  - by cbn.
  - eexists. split; [left|reflexivity].
  - by rewrite serve_appWithLimiter.
Qed.

(** The stored record of a given id is the one [get_post] returns. *)
Lemma get_post_returns_stored file row :
  consistent file → row ∈ posts file →
  get_db (get_post Worker (row_id row)) file = (Return (PostDetail row), file)
  ∧ serve appWithSqlite (GET_posts_id (row_id row)) file
    = (response_with 200 (PostDetail row), file).
Proof.
  intros Hc Hin. pose proof (stored_id_fits _ _ Hc Hin) as Hfits.
  destruct Hc as [Hnd _].
  destruct (split_at_key _ _ Hnd Hin) as (before & after & Heq & Hb & Ha).
  assert (get_db (get_post Worker (row_id row)) file = (Return (PostDetail row), file))
    as H.
  { rewrite get_post_unfold, Hfits, Heq, select_split by assumption. reflexivity. }
  split; [exact H|]. unfold serve. cbn [handler_thread]. rewrite H. reflexivity.
Qed.

(** C7, as amended.  In [appWithSqlite.py], with ids unique in the table:
    [GET /posts/{id}] returns the stored record whose id is the given one
    when there is one (status 200, under the key [post_detail]); when
    there is none and the id is a signed 64-bit value, it fails with
    status 404 and the detail "post with id: {id} was not found": the
    handler raises the exception itself.  The table is left as it was. *)
Theorem get_post_found_or_404 (id : Z) (file : Database) :
  consistent file →
  (∀ row, row ∈ posts file → row_id row = id →
     get_db (get_post Worker id) file = (Return (PostDetail row), file)
     ∧ serve appWithSqlite (GET_posts_id id) file
       = (response_with 200 (PostDetail row), file))
  ∧ (fits_int64 id = true →
     (∀ row, row ∈ posts file → row_id row ≠ id) →
     get_db (get_post Worker id) file =
       (RaiseHTTP {| status_code := HTTP_404_NOT_FOUND;
                     detail := "post with id: " +:+ Py.str id +:+ " was not found";
                     headers := None |}, file)
     ∧ serve appWithSqlite (GET_posts_id id) file
       = (response_404 id " was not found", file)).
Proof.
  intros Hc. split.
  - intros row Hin <-. by apply get_post_returns_stored.
  - intros Hfits Hnone.
    assert (get_db (get_post Worker id) file
            = (RaiseHTTP (not_found id " was not found"), file)) as H.
    { rewrite get_post_unfold, Hfits, select_none by assumption. reflexivity. }
    split; [exact H|]. unfold serve. cbn [handler_thread]. rewrite H. reflexivity.
Qed.

Lemma get_post_found_or_404_witness :
  serve appWithSqlite (GET_posts_id 3) two_posts
  = (response_with 200 (PostDetail {| row_id := 3; row_title := "b"; row_content := "y";
                                      row_published := 0; row_rating := Some 4 |}),
     two_posts)
  ∧ serve appWithSqlite (GET_posts_id 2) two_posts
    = (response_404 2 " was not found", two_posts).
Proof.
  split.
  - destruct (get_post_found_or_404 3 two_posts two_posts_consistent) as [H _].
    apply H; [|reflexivity]. compute_done.
  - destruct (get_post_found_or_404 2 two_posts two_posts_consistent) as [_ H].
    apply H; [reflexivity|]. exact no_post_2_in_two_posts.
Defined.



(** A [rowcount] that is not 0 counts a stored record. *)
Lemma matched_some rows id :
  (Z.of_nat (length (where_id id rows)) =? 0) = false →
  ∃ row, row ∈ rows ∧ row_id row = id.
Proof.
  intros Hcount. apply Z.eqb_neq in Hcount.
  destruct (where_id id rows) as [|row sel] eqn:Hsel; [cbn in Hcount; lia|].
  assert (row ∈ where_id id rows) as Hin by (rewrite Hsel; left).
  apply list_elem_of_filter in Hin as [Hid Hin]. by exists row.
Qed.





(** C10.  The handlers of both files have the same body.  With ids
    unique in the table: when [PUT /posts/{id}] succeeds (200), the table
    was [before ++ row :: after] with [row] the one record of the given
    id, and is [before ++ updated :: after] afterwards; when
    [DELETE /posts/{id}] succeeds (204), the table was
    [before ++ row :: after] and is [before ++ after] afterwards; the id
    sequence is not touched.  Whatever the two answer, the records of
    every other id are afterwards what they were, in the same order. *)
Theorem update_delete_touch_one_row
    (app : Application) (id : Z) (b : PostBody) (file : Database) :
  consistent file →
  let put := serve app (PUT_posts_id id b) file in
  let del := serve app (DELETE_posts_id id) file in
  (status put.1 = 200 →
   ∃ before row after,
     posts file = before ++ row :: after
     ∧ row_id row = id
     ∧ (∀ r, r ∈ before ++ after → row_id r ≠ id)
     ∧ put.2 =
         {| posts := before ++
                     {| row_id := id;
                        row_title := body_title b;
                        row_content := body_content b;
                        row_published := adapt_bool (default true (body_published b));
                        row_rating := bound_rating b |} :: after;
            sqlite_sequence := sqlite_sequence file |})
  ∧ (status del.1 = 204 →
     ∃ before row after,
       posts file = before ++ row :: after
       ∧ row_id row = id
       ∧ (∀ r, r ∈ before ++ after → row_id r ≠ id)
       ∧ del.2 = {| posts := before ++ after; sqlite_sequence := sqlite_sequence file |})
  ∧ filter (fun r => row_id r ≠ id) (posts put.2)
    = filter (fun r => row_id r ≠ id) (posts file)
  ∧ filter (fun r => row_id r ≠ id) (posts del.2)
    = filter (fun r => row_id r ≠ id) (posts file).
Proof.
  intros [Hnd _] put del. subst put del. destruct app.
  2:{ rewrite !serve_appWithLimiter. cbn [fst snd uses_db].
      repeat split; try reflexivity; intros H; by cbn in H. }
  unfold serve. cbn [handler_thread].
  rewrite update_post_unfold, delete_post_unfold. cbn [parse_Post rating title content published].
  fold (bound_rating b).
  assert (∀ row, row ∈ posts file → row_id row = id →
          ∃ before after,
            posts file = before ++ row :: after
            ∧ (∀ r, r ∈ before ++ after → row_id r ≠ id)
            ∧ set_columns (body_title b) (body_content b)
                (default true (body_published b)) (bound_rating b) id <$> posts file
              = before ++ {| row_id := id;
                             row_title := body_title b;
                             row_content := body_content b;
                             row_published := adapt_bool (default true (body_published b));
                             row_rating := bound_rating b |} :: after
            ∧ filter (fun r => row_id r ≠ id) (posts file) = before ++ after) as Hsplit.
  { intros row Hin <-.
    destruct (split_at_key _ _ Hnd Hin) as (before & after & Heq & Hb & Ha).
    exists before, after. split; [exact Heq|]. split.
    { intros r Hr. apply elem_of_app in Hr as [Hr|Hr]; auto. }
    rewrite Heq, update_split, delete_split by assumption. done. }
  split; [|split; [|split]].
  - destruct (fits_optional (bound_rating b) && fits_int64 id); [|intros H; by cbn in H].
    destruct (_ =? 0) eqn:Hcount; [intros H; by cbn in H|]. intros _.
    apply matched_some in Hcount as (row & Hin & Hid).
    destruct (Hsplit row Hin Hid) as (before & after & Heq & Hne & Hupd & _).
    exists before, row, after. cbn [snd]. by rewrite Hupd.
  - destruct (fits_int64 id); [|intros H; by cbn in H].
    destruct (_ =? 0) eqn:Hcount; [intros H; by cbn in H|]. intros _.
    apply matched_some in Hcount as (row & Hin & Hid).
    destruct (Hsplit row Hin Hid) as (before & after & Heq & Hne & _ & Hdel).
    exists before, row, after. cbn [snd]. by rewrite Hdel.
  - destruct (fits_optional (bound_rating b) && fits_int64 id); [|reflexivity].
    cbn [snd posts]. apply update_others.
  - destruct (fits_int64 id); [|reflexivity].
    cbn [snd posts]. apply delete_twice.
Qed.

Lemma update_delete_touch_one_row_witness :
  (∃ before row after,
     posts two_posts = before ++ row :: after
     ∧ row_id row = 3
     ∧ (∀ r, r ∈ before ++ after → row_id r ≠ 3)
     ∧ (serve appWithSqlite (PUT_posts_id 3 untitled) two_posts).2 =
         {| posts := before ++
                     {| row_id := 3; row_title := "t"; row_content := "c";
                        row_published := 1; row_rating := None |} :: after;
            sqlite_sequence := 3 |})
  ∧ (∃ before row after,
       posts two_posts = before ++ row :: after
       ∧ row_id row = 3
       ∧ (∀ r, r ∈ before ++ after → row_id r ≠ 3)
       ∧ (serve appWithSqlite (DELETE_posts_id 3) two_posts).2 =
           {| posts := before ++ after; sqlite_sequence := 3 |}).
Proof.
  destruct (update_delete_touch_one_row appWithSqlite 3 untitled two_posts
              two_posts_consistent) as (Hput & Hdel & _).
  split; [apply Hput|apply Hdel]; reflexivity.
Defined.

(** *** Consistency is kept, the sequence never decreases *)

Lemma init_db_consistent : consistent init_db.
Proof.
  split; [|split]; cbn; [constructor|constructor|].
  unfold INT64_MAX. lia.
Qed.

(** Consistency is a matter of the ids and the sequence. *)
Lemma consistent_by_ids (d d' : Database) :
  row_id <$> posts d' = row_id <$> posts d →
  sqlite_sequence d' = sqlite_sequence d →
  consistent d → consistent d'.
Proof.
  intros Hids Hseq (Hnd & Hle & Hs). unfold consistent.
  rewrite Hids, Hseq. split; [exact Hnd|]. split; [|exact Hs].
  apply (Forall_fmap row_id (fun i => INT64_MIN ≤ i ≤ sqlite_sequence d)).
  rewrite Hids. by apply Forall_fmap.
Qed.

(** What one request does to a consistent table: it appends a record
    under the next id of the sequence (201), or removes one record (204),
    or leaves the ids and the sequence as they were. *)
Lemma serve_effect (app : Application) (req : Request) file :
  consistent file →
  let r := (serve app req file).1 in
  let file' := (serve app req file).2 in
  (status r = 201
   ∧ sqlite_sequence file < INT64_MAX
   ∧ ∃ row, body r = Some (Data row)
            ∧ row_id row = sqlite_sequence file + 1
            ∧ file' = {| posts := posts file ++ [row];
                         sqlite_sequence := sqlite_sequence file + 1 |})
  ∨ (status r = 204
     ∧ ∃ before row after,
         posts file = before ++ row :: after
         ∧ file' = {| posts := before ++ after; sqlite_sequence := sqlite_sequence file |})
  ∨ (status r ≠ 201 ∧ status r ≠ 204
     ∧ sqlite_sequence file' = sqlite_sequence file
     ∧ row_id <$> posts file' = row_id <$> posts file).
Proof.
  intros Hc r file'. subst r file'. destruct app.
  2:{ rewrite serve_appWithLimiter. cbn [fst snd]. right. right.
      destruct (uses_db req); by cbn. }
  destruct req as [| |b|id|id|id b]; unfold serve; cbn [handler_thread].
  - right. right. by cbn.
  - rewrite get_posts_unfold. right. right. by cbn.
  - rewrite create_posts_unfold, (next_rowid_consistent _ Hc).
    destruct (fits_optional _); [|right; right; by cbn].
    destruct (sqlite_sequence file =? INT64_MAX) eqn:Hmax; [right; right; by cbn|].
    apply Z.eqb_neq in Hmax. destruct Hc as (_ & _ & Hs).
    left. cbn. split; [reflexivity|]. split; [lia|].
    eexists. split; [reflexivity|]. split; reflexivity.
  - rewrite get_post_unfold. right. right.
    destruct (fits_int64 id); [|by cbn]. by destruct (head _).
  - rewrite delete_post_unfold.
    destruct (fits_int64 id); [|right; right; by cbn].
    destruct (_ =? 0) eqn:Hcount.
    + right. right. cbn. split; [done|]. split; [done|]. split; [done|].
      apply Z.eqb_eq in Hcount.
      rewrite delete_none; [done|]. intros r Hr.
      apply (select_none_inv (posts file)); [|exact Hr].
      by destruct (where_id id (posts file)).
    + apply matched_some in Hcount as (row & Hin & <-). destruct Hc as (Hnd & _).
      destruct (split_at_key _ _ Hnd Hin) as (before & after & Heq & Hb & Ha).
      right. left. cbn. split; [reflexivity|].
      exists before, row, after. split; [exact Heq|].
      by rewrite Heq, delete_split.
  - rewrite update_post_unfold.
    destruct (_ && _); [|right; right; by cbn].
    right. right. cbn [fst snd posts sqlite_sequence]. rewrite update_ids.
    destruct (_ =? 0); [by cbn|]. by destruct (head _).
Qed.

Lemma serve_consistent (app : Application) (req : Request) file :
  consistent file → consistent (serve app req file).2.
Proof.
  intros Hc. pose proof Hc as (Hnd & Hle & Hs).
  destruct (serve_effect app req file Hc)
    as [(_ & Hmax & row & _ & Hid & ->)
       |[(_ & before & row & after & Heq & ->)|(_ & _ & Hseq & Hids)]].
  - split; [|split]; cbn [posts sqlite_sequence].
    + rewrite fmap_app. apply NoDup_app. split; [exact Hnd|]. split; [|apply NoDup_singleton].
      intros i Hi Hin. apply list_elem_of_singleton in Hin. subst i.
      apply list_elem_of_fmap in Hi as (r & Hr & Hin).
      rewrite Forall_forall in Hle. apply Hle in Hin. lia.
    + apply Forall_app. split.
      * eapply Forall_impl; [exact Hle|]. intros r Hr. cbn beta in Hr. lia.
      * apply Forall_singleton. unfold INT64_MIN in *. lia.
    + lia.
  - rewrite Heq in Hnd, Hle.
    split; [|split]; cbn [posts sqlite_sequence]; [| |exact Hs].
    + rewrite fmap_app in *. rewrite fmap_cons in Hnd.
      apply NoDup_app in Hnd as (Hb & Hdisj & Ha). apply NoDup_cons in Ha as [_ Ha].
      apply NoDup_app. split; [exact Hb|]. split; [|exact Ha].
      intros i Hi Hin. apply (Hdisj i Hi). by right.
    + apply Forall_app in Hle as [Hb Ha]. apply Forall_cons in Ha as [_ Ha].
      apply Forall_app. by split.
  - by apply (consistent_by_ids file).
Qed.







End Handlers.

(** ** The limiter: budget, window, keys *)

Section Budget.

Implicit Types (policy : RateLimitPolicy) (ctx : RequestContext) (key : RateLimitKey)
  (store : Store) (now t : Z).

Lemma evaluate_all_app reqs1 reqs2 store :
  evaluate_all (reqs1 ++ reqs2) store =
  ((evaluate_all reqs1 store).1 ++ (evaluate_all reqs2 (evaluate_all reqs1 store).2).1,
   (evaluate_all reqs2 (evaluate_all reqs1 store).2).2).
Proof.
  revert store. induction reqs1 as [|[[policy ctx] now] reqs1 IH]; intros store.
  - cbn. by destruct (evaluate_all reqs2 store).
  - cbn [app evaluate_all].
    destruct (evaluate policy ctx now store) as [d store1].
    rewrite IH.
    destruct (evaluate_all reqs1 store1) as [ds store2]. cbn [fst snd].
    by destruct (evaluate_all reqs2 store2).
Qed.

(** A request that finds no live counter opens a window. *)
Lemma evaluate_fresh policy ctx now store :
  lookup_live (derive_key ctx) now store = None →
  evaluate policy ctx now store =
  (decide_count policy (1, 1000 * windowSeconds policy),
   <[ derive_key ctx := {| count := 1; expires_at := now + 1000 * windowSeconds policy |} ]> store).
Proof.
  intros Hnone. unfold evaluate, increment. rewrite Hnone. cbn.
  do 3 f_equal. lia.
Qed.

(** A request that finds a live counter adds one to it and leaves its
    expiry alone. *)
Lemma evaluate_live policy ctx now store c e :
  store !! derive_key ctx = Some {| count := c; expires_at := e |} → now < e →
  evaluate policy ctx now store =
  (decide_count policy (c + 1, e - now),
   <[ derive_key ctx := {| count := c + 1; expires_at := e |} ]> store).
Proof.
  intros Hst Hlive. unfold evaluate, increment, lookup_live. rewrite Hst. cbn.
  by rewrite (proj2 (Z.ltb_lt now e) Hlive).
Qed.

(** While the window lasts and the budget is not used up, every request of
    the key is admitted and counted. *)
Lemma evaluate_all_within_budget policy ctx ts store c e :
  store !! derive_key ctx = Some {| count := c; expires_at := e |} →
  Forall (fun t => t < e) ts →
  c + Z.of_nat (length ts) ≤ maxRequests policy →
  evaluate_all (arrivals policy ctx ts) store =
  (replicate (length ts) Admit,
   <[ derive_key ctx := {| count := c + Z.of_nat (length ts); expires_at := e |} ]> store).
Proof.
  revert store c. induction ts as [|t ts IH]; intros store c Hst Hts Hc.
  - cbn. f_equal. rewrite Z.add_0_r. symmetry. by apply insert_id.
  - apply Forall_cons in Hts as [Ht Hts]. cbn [length] in Hc.
    cbn [arrivals fmap list_fmap evaluate_all].
    rewrite (evaluate_live _ _ _ _ c e) by assumption.
    fold (arrivals policy ctx ts).
    rewrite (IH _ (c + 1)); [| by rewrite lookup_insert_eq | exact Hts | lia].
    unfold decide_count. cbn [fst].
    rewrite (proj2 (Z.leb_le (c + 1) (maxRequests policy))) by lia.
    cbn [length replicate]. f_equal.
    rewrite insert_insert_eq. do 2 f_equal. lia.
Qed.


Lemma evaluate_admit_iff policy ctx now store :
  ∃ st, (evaluate policy ctx now store).2 !! derive_key ctx = Some st
        ∧ ((evaluate policy ctx now store).1 = Admit ↔ count st ≤ maxRequests policy).
Proof.
  unfold evaluate, increment.
  destruct (lookup_live (derive_key ctx) now store) as [st|]; cbn;
    (eexists; split; [apply lookup_insert_eq|]); unfold decide_count; cbn;
    destruct (Z.leb_spec0 (count st + 1) (maxRequests policy)) as [H|H] ||
    destruct (Z.leb_spec0 1 (maxRequests policy)) as [H|H];
    split; (done || lia).
Qed.

(** C1.  Under any policy, when a key without a live counter receives
    [maxRequests + 1] requests, the first at [t1] and the others within the
    window it opens ([t1 <= t < t1 + 1000 * windowSeconds]), [evaluate]
    admits the first [maxRequests] of them and rejects the last, with what
    is left of the window as retry time; and whatever the store and the
    time, the decision is [Admit] exactly when the count the increment
    leaves in the store is at most [maxRequests]. *)
Theorem evaluate_admits_up_to_max policy ctx store (t1 : Z) (ts : list Z) (t_last : Z) :
  lookup_live (derive_key ctx) t1 store = None →
  Z.of_nat (length (t1 :: ts)) = maxRequests policy →
  Forall (fun t => t1 ≤ t < t1 + 1000 * windowSeconds policy) (ts ++ [t_last]) →
  (evaluate_all (arrivals policy ctx (t1 :: ts ++ [t_last])) store).1
  = replicate (length (t1 :: ts)) Admit
    ++ [Reject (t1 + 1000 * windowSeconds policy - t_last)]
  ∧ ∀ now store',
      ∃ st, (evaluate policy ctx now store').2 !! derive_key ctx = Some st
            ∧ ((evaluate policy ctx now store').1 = Admit ↔ count st ≤ maxRequests policy).
Proof.
  intros Hfresh Hlen Hts. split; [|intros; apply evaluate_admit_iff].
  apply Forall_app in Hts as [Hts Hlast]. rewrite Forall_singleton in Hlast.
  cbn beta in Hlast. cbn [length] in Hlen.
  cbn [arrivals fmap list_fmap evaluate_all].
  rewrite evaluate_fresh by exact Hfresh.
  fold (arrivals policy ctx (ts ++ [t_last])).
  unfold arrivals at 1. rewrite fmap_app. fold (arrivals policy ctx ts).
  rewrite evaluate_all_app.
  set (e := t1 + 1000 * windowSeconds policy).
  rewrite (evaluate_all_within_budget _ _ ts _ 1 e);
    [| by rewrite lookup_insert_eq
     | eapply Forall_impl; [exact Hts|]; intros t Ht; cbn beta in Ht; unfold e; lia
     | lia].
  cbn [fst snd fmap list_fmap evaluate_all].
  rewrite insert_insert_eq.
  rewrite (evaluate_live _ _ _ _ (1 + Z.of_nat (length ts)) e);
    [| by rewrite lookup_insert_eq | unfold e; lia].
  unfold decide_count. cbn [fst snd].
  rewrite (proj2 (Z.leb_le 1 (maxRequests policy))) by lia.
  rewrite (proj2 (Z.leb_gt (1 + Z.of_nat (length ts) + 1) (maxRequests policy))) by lia.
  reflexivity.
Qed.


(** *** Keys *)

Lemma derive_key_ne ctx1 ctx2 :
  derive_key ctx1 ≠ derive_key ctx2 ↔
  peer_address ctx1 ≠ peer_address ctx2
  ∨ request_method ctx1 ≠ request_method ctx2
  ∨ route_template ctx1 ≠ route_template ctx2.
Proof.
  unfold derive_key. split.
  - intros Hne.
    destruct (decide (peer_address ctx1 = peer_address ctx2)) as [Hp|]; [|by left].
    destruct (decide (request_method ctx1 = request_method ctx2)) as [Hm|]; [|by right; left].
    destruct (decide (route_template ctx1 = route_template ctx2)) as [Ht|]; [|by right; right].
    exfalso. apply Hne. by rewrite Hp, Hm, Ht.
  - intros Hor [= Hp Hm Ht]. tauto.
Qed.

Lemma evaluate_other_key policy ctx now store key :
  derive_key ctx ≠ key → (evaluate policy ctx now store).2 !! key = store !! key.
Proof.
  intros Hne. unfold evaluate, increment. cbn. by rewrite lookup_insert_ne.
Qed.

Lemma evaluate_all_other_keys reqs store key :
  Forall (fun r => derive_key r.1.2 ≠ key) reqs →
  (evaluate_all reqs store).2 !! key = store !! key.
Proof.
  revert store. induction reqs as [|[[policy ctx] now] reqs IH]; intros store Hne; [done|].
  apply Forall_cons in Hne as [Hne1 Hne]. cbn [fst snd] in Hne1.
  cbn [evaluate_all].
  pose proof (evaluate_other_key policy ctx now store key Hne1) as H1.
  destruct (evaluate policy ctx now store) as [d store1]. cbn [snd] in H1.
  specialize (IH store1 Hne).
  destruct (evaluate_all reqs store1) as [ds store2]. cbn [snd] in *.
  by rewrite IH.
Qed.

(** The decision reads nothing of the store but the counter of its key. *)
Lemma evaluate_decision_local policy ctx now store1 store2 :
  store1 !! derive_key ctx = store2 !! derive_key ctx →
  (evaluate policy ctx now store1).1 = (evaluate policy ctx now store2).1.
Proof.
  intros Heq. unfold evaluate, increment, lookup_live. cbn. by rewrite Heq.
Qed.

(** C5.  Requests that differ from a context [ctx] in the caller, in
    the method or in the path template have keys other than the key of
    [ctx]; however many of them are evaluated (enough to exhaust their own
    budgets or not), the counter of [ctx] in the store is what it was, and
    the decision [evaluate] takes for [ctx] afterwards is the decision it
    would have taken before. *)
Theorem distinct_keys_never_share
    (reqs : list (RateLimitPolicy * RequestContext * Z)) store policy ctx now :
  Forall (fun r => peer_address r.1.2 ≠ peer_address ctx
                   ∨ request_method r.1.2 ≠ request_method ctx
                   ∨ route_template r.1.2 ≠ route_template ctx) reqs →
  Forall (fun r => derive_key r.1.2 ≠ derive_key ctx) reqs
  ∧ (evaluate_all reqs store).2 !! derive_key ctx = store !! derive_key ctx
  ∧ (evaluate policy ctx now (evaluate_all reqs store).2).1
    = (evaluate policy ctx now store).1.
Proof.
  intros Hdiff.
  assert (Forall (fun r => derive_key r.1.2 ≠ derive_key ctx) reqs) as Hne.
  { eapply Forall_impl; [exact Hdiff|]. intros r Hr. by apply derive_key_ne. }
  split; [exact Hne|].
  pose proof (evaluate_all_other_keys reqs store _ Hne) as Hsame.
  split; [exact Hsame|]. by apply evaluate_decision_local.
Qed.

(** C3.  A request at [t] that finds no live counter creates one with
    count 1 expiring at [t + 1000 * windowSeconds].  If the requests that
    follow are for other keys, then at any [t'] after that expiry the
    counter is no longer live, and the next request for the key is admitted
    as the first of a new window: the counter is set to count 1 again,
    expiring at [t' + 1000 * windowSeconds]. *)
Theorem window_elapsed_resets
    policy ctx store (t t' : Z) (others : list (RateLimitPolicy * RequestContext * Z)) :
  1 ≤ maxRequests policy →
  lookup_live (derive_key ctx) t store = None →
  Forall (fun r => derive_key r.1.2 ≠ derive_key ctx) others →
  t + 1000 * windowSeconds policy < t' →
  let created := (evaluate policy ctx t store).2 in
  let later := (evaluate_all others created).2 in
  created !! derive_key ctx
    = Some {| count := 1; expires_at := t + 1000 * windowSeconds policy |}
  ∧ lookup_live (derive_key ctx) t' later = None
  ∧ evaluate policy ctx t' later
    = (Admit,
       <[ derive_key ctx :=
            {| count := 1; expires_at := t' + 1000 * windowSeconds policy |} ]> later).
Proof.
  intros Hmax Hfresh Hothers Hlate created later.
  assert (created !! derive_key ctx
          = Some {| count := 1; expires_at := t + 1000 * windowSeconds policy |}) as Hc.
  { unfold created. rewrite evaluate_fresh by exact Hfresh. apply lookup_insert_eq. }
  assert (lookup_live (derive_key ctx) t' later = None) as Hexpired.
  { unfold lookup_live, later. rewrite evaluate_all_other_keys by exact Hothers.
    rewrite Hc. cbn [expires_at].
    by rewrite (proj2 (Z.ltb_ge t' (t + 1000 * windowSeconds policy))) by lia. }
  split; [exact Hc|]. split; [exact Hexpired|].
  rewrite evaluate_fresh by exact Hexpired.
  unfold decide_count. cbn [fst].
  by rewrite (proj2 (Z.leb_le 1 (maxRequests policy))) by lia.
Qed.

End Budget.

(** ** Simultaneous requests *)

Section Interleavings.

Context (policy : RateLimitPolicy) (key : RateLimitKey) (now : Z).
Hypothesis max_nonneg : 0 ≤ maxRequests policy.
Hypothesis window_positive : 0 < windowSeconds policy.

Lemma tally_cons f t l :
  tally f (t :: l) = ((if f t then 1 else 0) + tally f l)%nat.
Proof.
  unfold tally. rewrite filter_cons.
  destruct (f t) eqn:Hf; destruct (decide _); cbn; congruence.
Qed.

Lemma tally_insert f l (i : nat) x y (bx by' : bool) :
  l !! i = Some x → f x = bx → f y = by' →
  (tally f (<[ i := y ]> l) + Nat.b2n bx = tally f l + Nat.b2n by')%nat.
Proof.
  intros Hi <- <-. revert i Hi. induction l as [|t l IH]; intros i Hi; [done|].
  destruct i as [|i].
  - injection Hi as ->. change (<[ 0%nat := y ]> (x :: l)) with (y :: l).
    rewrite !tally_cons. destruct (f x), (f y); cbn; lia.
  - change (<[ S i := y ]> (t :: l)) with (t :: <[ i := y ]> l).
    rewrite !tally_cons. specialize (IH i Hi). destruct (f t), (f x), (f y); cbn in *; lia.
Qed.

Lemma tally_replicate_waiting f (n : nat) :
  f Waiting = false → tally f (replicate n Waiting) = 0%nat.
Proof.
  intros Hf. induction n as [|n IH]; [done|].
  cbn [replicate]. rewrite tally_cons, Hf, IH. done.
Qed.

Lemma start_balanced store (n : nat) :
  lookup_live key now store = None → balanced policy key now (start store n).
Proof.
  intros Hfresh. unfold balanced, issued, start. cbn [fst snd].
  rewrite !tally_replicate_waiting by done.
  split; [left; done|]. lia.
Qed.

Lemma fire_length i c c' :
  fire policy key now i c = Some c' → length c'.2 = length c.2.
Proof.
  unfold fire. destruct (c.2 !! i) as [[|r|d]|]; try discriminate.
  - destruct (increment policy key now c.1). intros [= <-]. cbn. apply length_insert.
  - intros [= <-]. cbn. apply length_insert.
Qed.

Lemma decide_count_admitted r :
  is_admitted (Done (decide_count policy r)) = (r.1 <=? maxRequests policy).
Proof. unfold decide_count. by destruct (r.1 <=? maxRequests policy). Qed.

Lemma decide_count_rejected r :
  is_rejected (Done (decide_count policy r)) = negb (r.1 <=? maxRequests policy).
Proof. unfold decide_count. by destruct (r.1 <=? maxRequests policy). Qed.

Lemma fire_balanced i c c' :
  fire policy key now i c = Some c' →
  balanced policy key now c → balanced policy key now c'.
Proof.
  destruct c as [store l]. unfold fire. cbn [fst snd].
  destruct (l !! i) as [[|r|d]|] eqn:Hi; try discriminate.
  - (* the store counts the request *)
    intros Hfire (Hstore & Hwithin & Hover). unfold issued in *. cbn [fst snd] in *.
    assert (increment policy key now store
            = ((Z.of_nat (tally has_count l) + 1, 1000 * windowSeconds policy),
               <[ key := {| count := Z.of_nat (tally has_count l) + 1;
                            expires_at := now + 1000 * windowSeconds policy |} ]> store))
      as Hincr.
    { unfold increment. destruct Hstore as [[Hz Hnone]|[Hpos Hsome]].
      - rewrite Hnone, Hz. cbn. do 2 f_equal. lia.
      - unfold lookup_live. rewrite Hsome. cbn [expires_at count].
        rewrite (proj2 (Z.ltb_lt now (now + 1000 * windowSeconds policy))) by lia.
        cbn. do 2 f_equal. lia. }
    rewrite Hincr in Hfire. injection Hfire as <-.
    set (m := Z.of_nat (tally has_count l)) in *.
    set (r := (m + 1, 1000 * windowSeconds policy)).
    pose proof (tally_insert has_count l i Waiting (Counted r) false true Hi
                  eq_refl eq_refl) as H1.
    pose proof (tally_insert is_admitted l i Waiting (Counted r) false false Hi
                  eq_refl eq_refl) as H2.
    pose proof (tally_insert is_rejected l i Waiting (Counted r) false false Hi
                  eq_refl eq_refl) as H3.
    pose proof (tally_insert (holds_within policy) l i Waiting (Counted r) false
                  (m + 1 <=? maxRequests policy) Hi eq_refl eq_refl) as H4.
    pose proof (tally_insert (holds_over policy) l i Waiting (Counted r) false
                  (negb (m + 1 <=? maxRequests policy)) Hi eq_refl eq_refl) as H5.
    unfold balanced, issued. cbn [fst snd].
    assert (Z.of_nat (tally has_count (<[ i := Counted r ]> l)) = m + 1) as ->
      by (unfold m; cbn [Nat.b2n] in H1; lia).
    split.
    { right. split; [unfold m; lia|]. by rewrite lookup_insert_eq. }
    destruct (Z.leb_spec (m + 1) (maxRequests policy)); cbn [Nat.b2n negb] in *; lia.
  - (* the request compares its count with the limit *)
    intros [= <-] (Hstore & Hwithin & Hover). unfold balanced, issued in *. cbn [fst snd] in *.
    set (d := decide_count policy r).
    pose proof (tally_insert has_count l i (Counted r) (Done d) true true Hi
                  eq_refl eq_refl) as H1.
    pose proof (tally_insert is_admitted l i (Counted r) (Done d) false _ Hi
                  eq_refl (decide_count_admitted r)) as H2.
    pose proof (tally_insert is_rejected l i (Counted r) (Done d) false _ Hi
                  eq_refl (decide_count_rejected r)) as H3.
    pose proof (tally_insert (holds_within policy) l i (Counted r) (Done d)
                  (r.1 <=? maxRequests policy) false Hi eq_refl eq_refl) as H4.
    pose proof (tally_insert (holds_over policy) l i (Counted r) (Done d)
                  (negb (r.1 <=? maxRequests policy)) false Hi eq_refl eq_refl) as H5.
    assert (tally has_count (<[ i := Done d ]> l) = tally has_count l) as ->
      by (cbn [Nat.b2n] in H1; lia).
    split; [exact Hstore|].
    destruct (r.1 <=? maxRequests policy); cbn [Nat.b2n negb] in *; lia.
Qed.

Lemma run_balanced schedule c c' :
  run policy key now schedule c = Some c' →
  balanced policy key now c →
  balanced policy key now c' ∧ length c'.2 = length c.2.
Proof.
  revert c. induction schedule as [|i schedule IH]; intros c Hrun Hb.
  - injection Hrun as <-. done.
  - cbn [run] in Hrun.
    destruct (fire policy key now i c) as [c1|] eqn:Hfire; [|discriminate].
    destruct (IH c1 Hrun (fire_balanced _ _ _ Hfire Hb)) as [Hb' Hlen].
    split; [exact Hb'|]. rewrite Hlen. by eapply fire_length.
Qed.


Lemma all_done_tallies l :
  forallb is_done l = true →
  tally (holds_within policy) l = 0%nat
  ∧ tally (holds_over policy) l = 0%nat
  ∧ tally has_count l = length l.
Proof.
  induction l as [|t l IH]; [done|].
  cbn [forallb]. intros [Ht Hl]%andb_prop.
  destruct (IH Hl) as (H1 & H2 & H3).
  rewrite !tally_cons, H1, H2, H3. by destruct t.
Qed.

Lemma not_all_done l :
  forallb is_done l = false → ∃ (i : nat) t, l !! i = Some t ∧ is_done t = false.
Proof.
  induction l as [|t l IH]; [discriminate|].
  cbn [forallb]. destruct (is_done t) eqn:Ht.
  - cbn. intros Hl. destruct (IH Hl) as (i & t' & Hi & Ht'). by exists (S i), t'.
  - intros _. by exists 0%nat, t.
Qed.

Lemma can_fire store l (i : nat) t :
  l !! i = Some t → is_done t = false →
  ∃ c1, fire policy key now i (store, l) = Some c1 ∧ (remaining c1.2 < remaining l)%nat.
Proof.
  intros Hi Ht. unfold fire. cbn [fst snd]. rewrite Hi.
  destruct t as [|r|d]; [| |discriminate].
  - destruct (increment policy key now store) as [r store1].
    eexists. split; [reflexivity|]. cbn [snd]. unfold remaining.
    pose proof (tally_insert is_waiting l i Waiting (Counted r) true false Hi
                  eq_refl eq_refl) as H1.
    pose proof (tally_insert is_counted l i Waiting (Counted r) false true Hi
                  eq_refl eq_refl) as H2.
    cbn [Nat.b2n] in *. lia.
  - eexists. split; [reflexivity|]. cbn [snd]. unfold remaining.
    pose proof (tally_insert is_waiting l i (Counted r) (Done (decide_count policy r))
                  false false Hi eq_refl eq_refl) as H1.
    pose proof (tally_insert is_counted l i (Counted r) (Done (decide_count policy r))
                  true false Hi eq_refl eq_refl) as H2.
    cbn [Nat.b2n] in *. lia.
Qed.

Lemma run_app schedule1 schedule2 c :
  run policy key now (schedule1 ++ schedule2) c =
  match run policy key now schedule1 c with
  | Some c1 => run policy key now schedule2 c1
  | None => None
  end.
Proof.
  revert c. induction schedule1 as [|i schedule1 IH]; intros c; [done|].
  cbn [app run]. by destruct (fire policy key now i c).
Qed.

(** Whatever has happened so far, the requests can all be brought to their
    decision. *)
Lemma completes (n : nat) c :
  (remaining c.2 ≤ n)%nat →
  ∃ more c', run policy key now more c = Some c' ∧ all_done c' = true.
Proof.
  revert c. induction n as [|n IH]; intros [store l] Hn; cbn [snd] in Hn.
  - exists [], (store, l). split; [done|].
    unfold all_done. cbn [snd].
    destruct (forallb is_done l) eqn:Hd; [done|].
    destruct (not_all_done l Hd) as (i & t & Hi & Ht).
    destruct (can_fire store l i t Hi Ht) as (c1 & _ & Hlt). lia.
  - destruct (forallb is_done l) eqn:Hd; [by exists [], (store, l)|].
    destruct (not_all_done l Hd) as (i & t & Hi & Ht).
    destruct (can_fire store l i t Hi Ht) as (c1 & Hfire & Hlt).
    destruct (IH c1) as (more & c' & Hrun & Hdone); [lia|].
    exists (i :: more), c'. split; [|exact Hdone].
    cbn [run]. by rewrite Hfire.
Qed.

End Interleavings.

(** C4.  [maxRequests + k] requests for one key arrive together while
    the key has no live counter.  Whatever the order in which the scheduler
    interleaves their increments and their comparisons, at no point are
    more than [maxRequests] admitted; once all are decided, exactly
    [maxRequests] are admitted and exactly [k] rejected; and every
    interleaving can be continued until all are decided. *)
Theorem simultaneous_requests_admit_max
    (policy : RateLimitPolicy) (key : RateLimitKey) (now : Z)
    (store : gmap RateLimitKey RateLimitState) (k : nat)
    (schedule : list nat) (c : Config) :
  0 ≤ maxRequests policy →
  0 < windowSeconds policy →
  lookup_live key now store = None →
  run policy key now schedule (start store (Z.to_nat (maxRequests policy) + k)) = Some c →
  (admitted c ≤ Z.to_nat (maxRequests policy))%nat
  ∧ (all_done c = true →
     admitted c = Z.to_nat (maxRequests policy) ∧ rejected c = k)
  ∧ ∃ more c',
      run policy key now (schedule ++ more)
        (start store (Z.to_nat (maxRequests policy) + k)) = Some c'
      ∧ all_done c' = true
      ∧ admitted c' = Z.to_nat (maxRequests policy) ∧ rejected c' = k.
Proof.
  intros Hmax Hwindow Hfresh Hrun.
  assert (∀ schedule' c',
            run policy key now schedule'
              (start store (Z.to_nat (maxRequests policy) + k)) = Some c' →
            (admitted c' ≤ Z.to_nat (maxRequests policy))%nat
            ∧ (all_done c' = true →
               admitted c' = Z.to_nat (maxRequests policy) ∧ rejected c' = k)) as Hany.
  { intros schedule' c' Hrun'.
    destruct (run_balanced policy key now Hwindow schedule' _ c' Hrun'
                (start_balanced policy key now Hmax store _ Hfresh))
      as [(_ & Hwithin & Hover) Hlen].
    unfold start in Hlen. cbn [snd] in Hlen. rewrite length_replicate in Hlen.
    unfold admitted, rejected. fold (tally is_admitted c'.2) (tally is_rejected c'.2).
    split; [lia|].
    intros Hdone. unfold all_done in Hdone.
    destruct (all_done_tallies policy c'.2 Hdone) as (H1 & H2 & H3).
    unfold issued in *. rewrite H1, H2, H3, Hlen in *. lia. }
  destruct (Hany schedule c Hrun) as [Hle Hdone].
  split; [exact Hle|]. split; [exact Hdone|].
  destruct (completes policy key now (remaining c.2) c (le_n _)) as (more & c' & Hmore & Hd).
  exists more, c'.
  assert (run policy key now (schedule ++ more)
            (start store (Z.to_nat (maxRequests policy) + k)) = Some c') as Hfull
    by (by rewrite run_app, Hrun).
  split; [exact Hfull|]. split; [exact Hd|].
  by apply (Hany _ _ Hfull).
Qed.

(** ** The routes, and the properties on sample data *)

Lemma empty_store_fresh key now : lookup_live key now (∅ : Store) = None.
Proof. unfold lookup_live. by rewrite lookup_empty. Qed.

Lemma evaluate_admits_up_to_max_witness :
  (evaluate_all (arrivals root_policy alice [0; 100; 200]) ∅).1
  = [Admit; Admit; Reject 4800].
Proof.
  apply (proj1 (evaluate_admits_up_to_max root_policy alice ∅ 0 [100] 200
                  (empty_store_fresh _ _) eq_refl
                  ltac:(repeat constructor; cbn; lia))).
Defined.

Lemma window_elapsed_resets_witness :
  (evaluate root_policy alice 5100
     (evaluate_all [(root_policy, bob, 100)] (evaluate root_policy alice 0 ∅).2).2).1
  = Admit.
Proof.
  pose proof (window_elapsed_resets root_policy alice ∅ 0 5100 [(root_policy, bob, 100)]) as H.
  cbn zeta in H.
  destruct H as (_ & _ & ->).
  - cbn. lia.
  - apply empty_store_fresh.
  - repeat constructor. cbn. discriminate.
  - cbn. lia.
  - reflexivity.
Defined.

Lemma distinct_keys_never_share_witness :
  (evaluate root_policy alice 300
     (evaluate_all (arrivals root_policy bob [0; 100; 200]) ∅).2).1
  = (evaluate root_policy alice 300 ∅).1.
Proof.
  apply (distinct_keys_never_share (arrivals root_policy bob [0; 100; 200]) ∅
           root_policy alice 300).
  repeat (constructor; [left; cbn; discriminate|]). constructor.
Defined.

Lemma simultaneous_requests_admit_max_witness :
  ∃ more c',
    run root_policy (derive_key alice) 0 ([] ++ more)
      (start ∅ (Z.to_nat (maxRequests root_policy) + 1)) = Some c'
    ∧ all_done c' = true
    ∧ admitted c' = Z.to_nat (maxRequests root_policy) ∧ rejected c' = 1%nat.
Proof.
  refine (proj2 (proj2 (simultaneous_requests_admit_max root_policy (derive_key alice) 0
                          ∅ 1 [] _ _ _ _ eq_refl))).
  - cbn. lia.
  - cbn. lia.
  - apply empty_store_fresh.
Defined.

(** C6.  The application registers six routes, no two with the same
    method and path, each with exactly one limiter: 2 requests per 5
    seconds for [GET /], 30 per 60 for [GET /posts], 5 per 60 for
    [POST /posts], 20 per 60 for [GET /posts/{id}], 10 per 60 for
    [PUT /posts/{id}] and 3 per 60 for [DELETE /posts/{id}]. *)
Theorem routes_carry_one_policy :
  length routes = 6%nat
  ∧ NoDup ((fun r => (route_method r, route_path r)) <$> routes)
  ∧ Forall (fun r => length (dependencies r) = 1%nat) routes
  ∧ attach <$> limiters_of GET "/" = [ {| maxRequests := 2; windowSeconds := 5 |} ]
  ∧ attach <$> limiters_of GET "/posts" = [ {| maxRequests := 30; windowSeconds := 60 |} ]
  ∧ attach <$> limiters_of POST "/posts" = [ {| maxRequests := 5; windowSeconds := 60 |} ]
  ∧ attach <$> limiters_of GET "/posts/{id}" = [ {| maxRequests := 20; windowSeconds := 60 |} ]
  ∧ attach <$> limiters_of PUT "/posts/{id}" = [ {| maxRequests := 10; windowSeconds := 60 |} ]
  ∧ attach <$> limiters_of DELETE "/posts/{id}" = [ {| maxRequests := 3; windowSeconds := 60 |} ].
Proof.
  split; [reflexivity|]. split; [compute_done|]. split; [by repeat constructor|].
  repeat split; vm_compute; reflexivity.
Qed.

(* ===================================================================== *)
(** * Further properties of the handlers *)
(* ===================================================================== *)

Section RoundTrips.

Implicit Types (rows : list Row) (row r : Row) (id : Z) (file : Database) (b : PostBody).





End RoundTrips.

Section Idempotence.

Implicit Types (rows : list Row) (row r : Row) (id : Z) (file : Database) (b : PostBody).






End Idempotence.

Section Sequence.

Implicit Types (rows : list Row) (row r : Row) (id : Z) (file : Database) (b : PostBody).

Lemma init_db_ordered : ordered init_db.
Proof. split; [constructor|exact init_db_consistent]. Qed.

Lemma serve_ordered (app : Application) (req : Request) file :
  ordered file → ordered (serve app req file).2.
Proof.
  intros [Hs Hc]. split; [|by apply serve_consistent].
  pose proof Hc as (_ & Hle & _).
  destruct (serve_effect app req file Hc)
    as [(_ & _ & row & _ & Hid & ->)
       |[(_ & before & row & after & Heq & ->)|(_ & _ & _ & ->)]];
    cbn [posts]; [| |exact Hs].
  - rewrite fmap_app. apply StronglySorted_app_2; [|exact Hs|repeat constructor].
    intros i j Hi Hj. apply list_elem_of_singleton in Hj. subst j.
    apply list_elem_of_fmap in Hi as (r & -> & Hr).
    rewrite Forall_forall in Hle. apply Hle in Hr. lia.
  - rewrite Heq, fmap_app, fmap_cons in Hs. rewrite fmap_app.
    apply StronglySorted_app in Hs as (Hlt & Hb & Ha).
    apply StronglySorted_cons in Ha as [_ Ha].
    apply StronglySorted_app_2; [|exact Hb|exact Ha].
    intros i j Hi Hj. apply Hlt; [exact Hi|by right].
Qed.

Lemma serve_all_ordered (app : Application) (reqs : list Request) file :
  ordered file → ordered (serve_all app reqs file).2.
Proof.
  revert file. induction reqs as [|req reqs IH]; intros file Ho; [exact Ho|].
  cbn [serve_all].
  pose proof (serve_ordered app req file Ho) as Ho1.
  destruct (serve app req file) as [r file1]. cbn [snd] in Ho1.
  specialize (IH file1 Ho1).
  by destruct (serve_all app reqs file1) as [rs file2].
Qed.

(** X7.  In [appWithSqlite.py], starting from a consistent table in
    increasing id order, every sequence of requests leaves such a table:
    [GET /posts] then lists the records by increasing id, no id twice. *)
Theorem listing_stays_ordered (reqs : list Request) file :
  ordered file →
  ordered (serve_all appWithSqlite reqs file).2
  ∧ ∃ rows, serve appWithSqlite GET_posts (serve_all appWithSqlite reqs file).2
            = (response_with 200 (DataList rows), (serve_all appWithSqlite reqs file).2)
            ∧ StronglySorted Z.lt (row_id <$> rows)
            ∧ NoDup (row_id <$> rows).
Proof.
  intros Ho. pose proof (serve_all_ordered appWithSqlite reqs file Ho) as Ho'.
  split; [exact Ho'|].
  exists (posts (serve_all appWithSqlite reqs file).2).
  split; [by rewrite serve_GET_posts|].
  destruct Ho' as [Hs (Hnd & _)]. by split.
Qed.

Lemma with_status_cons (st : Z) (r : Response) (rs : list Response) :
  with_status st (r :: rs)
  = (if decide (status r = st) then 1 else 0) + with_status st rs.
Proof.
  unfold with_status. rewrite filter_cons.
  destruct (decide (status r = st)); cbn [length]; lia.
Qed.

Lemma with_status_nonneg (st : Z) (rs : list Response) : 0 ≤ with_status st rs.
Proof. unfold with_status. lia. Qed.

(** X8.  In both files, from a consistent table with sequence [s], the
    ids the 201 responses to a sequence of requests report are [s + 1],
    [s + 2], ... in this order, whatever other requests come in between:
    an id freed by a DELETE is not given again, and a POST that fails
    takes no id.  The sequence ends at [s] plus the number of 201
    responses. *)
Theorem ids_are_handed_out_in_sequence
    (app : Application) (reqs : list Request) file :
  consistent file →
  omap assigned_id (serve_all app reqs file).1
  = seqZ (sqlite_sequence file + 1) (with_status 201 (serve_all app reqs file).1)
  ∧ sqlite_sequence (serve_all app reqs file).2
    = sqlite_sequence file + with_status 201 (serve_all app reqs file).1.
Proof.
  revert file. induction reqs as [|req reqs IH]; intros file Hc.
  - cbn. split; [reflexivity|]. unfold with_status. cbn. lia.
  - cbn [serve_all].
    pose proof (serve_consistent app req file Hc) as Hc1.
    pose proof (serve_effect app req file Hc) as Heff. cbn zeta in Heff.
    destruct (serve app req file) as [r file1]. cbn [fst snd] in *.
    destruct (IH file1 Hc1) as [Hids Hseq].
    destruct (serve_all app reqs file1) as [rs file2]. cbn [fst snd] in *.
    rewrite with_status_cons. pose proof (with_status_nonneg 201 rs) as Hn.
    assert (assigned_id r = None ∧ status r ≠ 201 ∧ sqlite_sequence file1 = sqlite_sequence file
            ∨ assigned_id r = Some (sqlite_sequence file + 1) ∧ status r = 201
              ∧ sqlite_sequence file1 = sqlite_sequence file + 1) as Hr.
    { unfold assigned_id.
      destruct Heff as [(Hst & _ & row & Hbody & Hid & ->)
                       |[(Hst & before & row & after & _ & ->)|(Hst & _ & Hs & _)]].
      - right. rewrite Hst, Hbody, Hid. by cbn.
      - left. rewrite Hst. by cbn.
      - left. replace (status r =? HTTP_201_CREATED) with false
          by (symmetry; by apply Z.eqb_neq).
        done. }
    destruct Hr as [(Ha & Hst & Hs)|(Ha & Hst & Hs)]; cbn [omap list_omap]; rewrite Ha.
    + rewrite decide_False by exact Hst. rewrite Hids, Hseq, Hs. split; [f_equal|]; lia.
    + rewrite decide_True by exact Hst. rewrite Hids, Hseq, Hs.
      rewrite (seqZ_cons (sqlite_sequence file + 1)) by lia.
      split; [|lia]. do 2 f_equal; lia.
Qed.

(** X12.  In both files, from a consistent table, after any sequence of
    requests the number of stored records is the number at the start, plus
    the number of 201 responses, minus the number of 204 responses: every
    201 stands for one record added, every 204 for exactly one removed,
    and nothing else adds or removes a record. *)
Theorem posts_are_accounted_for (app : Application) (reqs : list Request) file :
  consistent file →
  Z.of_nat (length (posts (serve_all app reqs file).2))
  = Z.of_nat (length (posts file))
    + with_status 201 (serve_all app reqs file).1
    - with_status 204 (serve_all app reqs file).1.
Proof.
  revert file. induction reqs as [|req reqs IH]; intros file Hc.
  - cbn. unfold with_status. cbn. lia.
  - cbn [serve_all].
    pose proof (serve_consistent app req file Hc) as Hc1.
    pose proof (serve_effect app req file Hc) as Heff. cbn zeta in Heff.
    destruct (serve app req file) as [r file1]. cbn [fst snd] in *.
    specialize (IH file1 Hc1).
    destruct (serve_all app reqs file1) as [rs file2]. cbn [fst snd] in *.
    rewrite !with_status_cons, IH.
    destruct Heff as [(Hst & _ & row & _ & _ & ->)
                     |[(Hst & before & row & after & Heq & ->)|(Hst1 & Hst4 & _ & Hids)]].
    + rewrite Hst. rewrite decide_True by done. rewrite decide_False by done.
      cbn [posts]. rewrite length_app. cbn [length]. lia.
    + rewrite Hst. rewrite decide_False by done. rewrite decide_True by done.
      rewrite Heq. cbn [posts]. rewrite !length_app. cbn [length]. lia.
    + rewrite !decide_False by done.
      apply (f_equal length) in Hids. rewrite !length_fmap in Hids. lia.
Qed.

End Sequence.

Section Remaining.

Implicit Types (file : Database) (b : PostBody).

(** X9.  On each of the six routes, for remaining times
    [0 < p <= p'] within the window of the route, the callback reports
    whole seconds [e] for [p] and [e'] for [p'] with
    [1 <= e <= e' <= seconds]: never 0 while time remains, never more than
    the window, and not increasing as the window runs out. *)
Theorem retry_after_within_window (l : RateLimiter) (p p' : Z) :
  In l (concat (dependencies <$> routes)) →
  0 < p ≤ p' → p' ≤ 1000 * seconds l →
  ∃ e e' : Z,
    custom_callback (A := Body) p =
      RaiseHTTP {| status_code := 429;
                   detail := "Too Many Requests. Retry after " +:+ Py.str e +:+ " seconds.";
                   headers := Some [("Retry-After", Py.str e)] |}
    ∧ custom_callback (A := Body) p' =
      RaiseHTTP {| status_code := 429;
                   detail := "Too Many Requests. Retry after " +:+ Py.str e' +:+ " seconds.";
                   headers := Some [("Retry-After", Py.str e')] |}
    ∧ 1 ≤ e ≤ e' ∧ e' ≤ seconds l.
Proof.
  intros Hl Hp Hp'.
  destruct (window_of_route l Hl) as [Hw _].
  exists (Py.exact_ceil p 1000), (Py.exact_ceil p' 1000).
  unfold custom_callback. rewrite !ceil_truediv_exact by lia.
  split; [reflexivity|]. split; [reflexivity|].
  pose proof (exact_ceil_spec p 1000 ltac:(lia)).
  pose proof (exact_ceil_spec p' 1000 ltac:(lia)).
  lia.
Qed.

(** X10.  On either thread, no handler leaves its connection holding a
    change it has not committed, on its error paths too ([delete_post] and
    [update_post] commit before they look at [rowcount], and a statement
    the driver refuses changes nothing): the file that [get_db] closes
    holds all the handler wrote. *)
Theorem nothing_is_left_uncommitted (thread : ThreadId) (id : Z) (post : Post) file :
  Forall (fun conn => committed conn = working conn ∧ close conn = working conn)
    [ (create_posts thread post (connect Worker file)).2;
      (update_post thread id post (connect Worker file)).2;
      (delete_post thread id (connect Worker file)).2;
      (get_post thread id (connect Worker file)).2;
      (get_posts thread (connect Worker file)).2 ].
Proof.
  assert (∀ conn, committed conn = working conn →
                  committed conn = working conn ∧ close conn = working conn) as Hclose
    by (intros conn H; by split).
  repeat (apply List.Forall_cons; [apply Hclose|]); [| | | | |apply List.Forall_nil];
    destruct thread; try reflexivity.
  - unfold create_posts, bind. rewrite cursor_on_owner.
    unfold execute_insert, commit, execute_select_last_insert, fetchone.
    cbn [working connect].
    destruct (fits_optional _); [|reflexivity].
    destruct (next_rowid file); [|reflexivity]. cbn.
    by destruct (head _).
  - unfold update_post, bind. rewrite cursor_on_owner.
    unfold execute_update, commit, fetchone, execute_select_by_id.
    destruct (fits_optional _ && fits_int64 id) eqn:Hfits; [|reflexivity].
    apply andb_true_iff in Hfits as [_ Hid]. cbn.
    destruct (_ =? 0); [reflexivity|]. cbn. rewrite Hid. cbn.
    by destruct (head _).
  - unfold delete_post, bind. rewrite cursor_on_owner.
    unfold execute_delete, commit.
    destruct (fits_int64 id); [|reflexivity]. cbn.
    by destruct (_ =? 0).
  - unfold get_post, bind. rewrite cursor_on_owner.
    unfold execute_select_by_id, fetchone.
    destruct (fits_int64 id); [|reflexivity]. cbn.
    by destruct (head _).
Qed.


End Remaining.

(** ** The further properties on sample data *)






Lemma listing_stays_ordered_witness :
  ordered (serve_all appWithSqlite
             [POST_posts untitled; POST_posts untitled; DELETE_posts_id 1] init_db).2.
Proof.
  exact (proj1 (listing_stays_ordered
                  [POST_posts untitled; POST_posts untitled; DELETE_posts_id 1]
                  init_db init_db_ordered)).
Defined.

Lemma ids_are_handed_out_in_sequence_witness :
  let reqs := [POST_posts untitled; POST_posts (rated (2 ^ 63)); DELETE_posts_id 1;
               POST_posts untitled] in
  omap assigned_id (serve_all appWithSqlite reqs init_db).1
  = seqZ (sqlite_sequence init_db + 1)
      (with_status 201 (serve_all appWithSqlite reqs init_db).1)
  ∧ sqlite_sequence (serve_all appWithSqlite reqs init_db).2
    = sqlite_sequence init_db + with_status 201 (serve_all appWithSqlite reqs init_db).1.
Proof.
  exact (ids_are_handed_out_in_sequence appWithSqlite
           [POST_posts untitled; POST_posts (rated (2 ^ 63)); DELETE_posts_id 1;
            POST_posts untitled] init_db init_db_consistent).
Defined.

Lemma retry_after_within_window_witness :
  ∃ e e' : Z,
    custom_callback (A := Body) 200 =
      RaiseHTTP {| status_code := 429;
                   detail := "Too Many Requests. Retry after " +:+ Py.str e +:+ " seconds.";
                   headers := Some [("Retry-After", Py.str e)] |}
    ∧ custom_callback (A := Body) 4800 =
      RaiseHTTP {| status_code := 429;
                   detail := "Too Many Requests. Retry after " +:+ Py.str e' +:+ " seconds.";
                   headers := Some [("Retry-After", Py.str e')] |}
    ∧ 1 ≤ e ≤ e' ∧ e' ≤ 5.
Proof.
  apply (retry_after_within_window {| times := 2; seconds := 5 |} 200 4800).
  - simpl. left. reflexivity.
  - lia.
  - simpl. lia.
Defined.

Lemma posts_are_accounted_for_witness :
  let reqs := [POST_posts untitled; DELETE_posts_id 1; DELETE_posts_id 1; GET_posts] in
  Z.of_nat (length (posts (serve_all appWithSqlite reqs two_posts).2))
  = Z.of_nat (length (posts two_posts))
    + with_status 201 (serve_all appWithSqlite reqs two_posts).1
    - with_status 204 (serve_all appWithSqlite reqs two_posts).1.
Proof.
  exact (posts_are_accounted_for appWithSqlite
           [POST_posts untitled; DELETE_posts_id 1; DELETE_posts_id 1; GET_posts]
           two_posts two_posts_consistent).
Defined.
